(** * queuectl: the storage engine and the executor, embedded and verified

    The development follows [src/storage.py] and [src/executor.py], and
    then [src/config.py] and the worker loop of [src/worker.py].

    - The [jobs] table is a finite map from the primary key [id] to the
      remaining columns of the row; the SQL statements of [Storage] are
      written with lookups, inserts, deletes and maps over that table.
    - Timestamps are stored as TEXT and compared by SQLite byte by byte, so
      the columns hold strings and are compared with [String.leb] and
      [String.ltb].  A clock reading ([datetime.now(timezone.utc)]) is a
      number of microseconds on an unbounded time line; its rendering
      [isoformat] is a parameter of the development.
    - Every operation opens its own connection and runs as one transaction;
      the operations are modelled as run to completion on the table, one at
      a time (no write-lock contention between connections). *)

From Stdlib Require Import ZArith String Ascii Bool Lia List DecimalString.
From stdpp Require Import gmap strings list fin_maps sorting.

Local Open Scope Z_scope.

(** ** Lexicographic order on TEXT values *)

Module Text.

Definition le (a b : string) : Prop := String.leb a b = true.
Definition lt (a b : string) : Prop := String.ltb a b = true.

#[global] Instance le_dec a b : Decision (le a b).
Proof. unfold le. apply _. Defined.

#[global] Instance lt_dec a b : Decision (lt a b).
Proof. unfold lt. apply _. Defined.

End Text.

(** ** Clock readings *)

Module Datetime.

(** [datetime]: microseconds since the epoch. *)
Definition datetime := Z.

(** [timedelta(seconds=n)] for an integer [n]. *)
Definition timedelta (seconds : Z) : Z := seconds * 1000000.

(** Python's [str] on an integer. *)
Definition str (n : Z) : string := NilZero.string_of_int (Z.to_int n).

End Datetime.

(** ** The jobs table *)

Module Storage.

Import Datetime.

(** The five values the code writes into the [state] column. *)
Inductive State := pending | processing | completed | failed | dead.

#[global] Instance State_eq_dec : EqDecision State.
Proof. solve_decision. Defined.

(** One row of [jobs] without its primary key. *)
Record Job := mkJob {
  command : string;
  state : State;
  attempts : Z;
  max_retries : Z;
  created_at : string;
  updated_at : string;
  next_run_at : string;
  last_error : option string;
  locked_by : option string;
  locked_at : option string
}.

(** The dictionary handed to [enqueue_job]: [id] and [command] are required,
    the other two keys are read with [job.get]. *)
Record JobSpec := mkJobSpec {
  job_id : string;
  job_command : string;
  job_max_retries : option Z;
  job_next_run_at : option string
}.

Abbreviation Table := (gmap string Job).

(** *** SQL statements over the table *)

(** [UPDATE jobs SET ... WHERE id = ? AND cond]; the second component is the
    number of rows changed. *)
Definition update_by_id (job_id : string) (cond : Job → bool) (set : Job → Job)
    (s : Table) : Table * nat :=
  match s !! job_id with
  | Some row => if cond row then (<[job_id := set row]> s, 1%nat) else (s, 0%nat)
  | None => (s, 0%nat)
  end.

(** [UPDATE jobs SET ... WHERE cond]. *)
Definition update_where (cond : Job → bool) (set : Job → Job) (s : Table) : Table :=
  (λ row, if cond row then set row else row) <$> s.

(** [SELECT ... FROM jobs WHERE cond]. *)
Definition select_where (cond : Job → bool) (s : Table) : list (string * Job) :=
  filter (λ r : string * Job, cond r.2) (map_to_list s).

(** [DELETE FROM jobs WHERE id = ? AND cond]. *)
Definition delete_by_id (job_id : string) (cond : Job → bool) (s : Table) : Table * nat :=
  match s !! job_id with
  | Some row => if cond row then (delete job_id s, 1%nat) else (s, 0%nat)
  | None => (s, 0%nat)
  end.

(** [ORDER BY created_at]. *)
Definition created_le (r1 r2 : string * Job) : Prop :=
  Text.le (created_at r1.2) (created_at r2.2).

#[global] Instance created_le_dec r1 r2 : Decision (created_le r1 r2).
Proof. unfold created_le. apply _. Defined.

Definition order_by_created_at (rows : list (string * Job)) : list (string * Job) :=
  merge_sort created_le rows.

(** *** Row updates (the SET clauses) *)

Definition set_acquired (worker_id now : string) (r : Job) : Job :=
  {| command := command r; state := processing; attempts := attempts r + 1;
     max_retries := max_retries r; created_at := created_at r;
     updated_at := now; next_run_at := next_run_at r;
     last_error := last_error r;
     locked_by := Some worker_id; locked_at := Some now |}.

Definition set_completed (now : string) (r : Job) : Job :=
  {| command := command r; state := completed; attempts := attempts r;
     max_retries := max_retries r; created_at := created_at r;
     updated_at := now; next_run_at := next_run_at r;
     last_error := last_error r;
     locked_by := None; locked_at := None |}.

Definition set_dead (now error : string) (r : Job) : Job :=
  {| command := command r; state := dead; attempts := attempts r;
     max_retries := max_retries r; created_at := created_at r;
     updated_at := now; next_run_at := next_run_at r;
     last_error := Some error;
     locked_by := None; locked_at := None |}.

Definition set_failed (now next_run error : string) (r : Job) : Job :=
  {| command := command r; state := failed; attempts := attempts r;
     max_retries := max_retries r; created_at := created_at r;
     updated_at := now; next_run_at := next_run;
     last_error := Some error;
     locked_by := None; locked_at := None |}.

Definition set_retried (reset_attempts : bool) (now : string) (r : Job) : Job :=
  {| command := command r; state := pending;
     attempts := if reset_attempts then 0 else attempts r;
     max_retries := max_retries r; created_at := created_at r;
     updated_at := now; next_run_at := now;
     last_error := None;
     locked_by := locked_by r; locked_at := locked_at r |}.

Definition set_recovered (r : Job) : Job :=
  {| command := command r; state := pending; attempts := attempts r;
     max_retries := max_retries r; created_at := created_at r;
     updated_at := updated_at r; next_run_at := next_run_at r;
     last_error := last_error r;
     locked_by := None; locked_at := None |}.

(** *** WHERE clauses *)

Definition any_row (r : Job) : bool := true.

Definition is_dead (r : Job) : bool := bool_decide (state r = dead).

(** [state = 'pending' AND next_run_at <= ?] *)
Definition is_available (now : string) (r : Job) : bool :=
  bool_decide (state r = pending) && String.leb (next_run_at r) now.

(** [state = 'processing' AND locked_at < ?]; a NULL [locked_at] compares
    as unknown and the row is not selected. *)
Definition is_abandoned (cutoff : string) (r : Job) : bool :=
  bool_decide (state r = processing) &&
  match locked_at r with
  | Some t => String.ltb t cutoff
  | None => false
  end.

(** *** The operations of [Storage] *)

Section Operations.

Variable isoformat : datetime → string.

(** [Storage.enqueue_job]: the INSERT raises [IntegrityError] when the
    primary key is taken, and the function then returns [False]. *)
Definition enqueue_job (clock : datetime) (job : JobSpec) (s : Table) : Table * bool :=
  let now := isoformat clock in
  match s !! job_id job with
  | Some _ => (s, false)
  | None =>
      (<[job_id job :=
           {| command := job_command job; state := pending; attempts := 0;
              max_retries := default 3 (job_max_retries job);
              created_at := now; updated_at := now;
              next_run_at := default now (job_next_run_at job);
              last_error := None; locked_by := None; locked_at := None |}]> s,
       true)
  end.

(** [Storage.acquire_job]. *)
Definition acquire_job (clock : datetime) (worker_id : string) (s : Table)
    : Table * option (string * Job) :=
  let now := isoformat clock in
  match head (order_by_created_at (select_where (is_available now) s)) with
  | Some row =>
      let job_id := row.1 in
      let s' := (update_by_id job_id any_row (set_acquired worker_id now) s).1 in
      (s', (λ r, (job_id, r)) <$> s' !! job_id)
  | None => (s, None)
  end.

(** [Storage.update_job_success]. *)
Definition update_job_success (clock : datetime) (job_id : string) (s : Table) : Table :=
  let now := isoformat clock in
  (update_by_id job_id any_row (set_completed now) s).1.

(** [Storage.update_job_failure]. *)
Definition update_job_failure (clock : datetime) (job_id error : string)
    (backoff_base : Z) (s : Table) : Table :=
  let now := clock in
  match s !! job_id with
  | None => s
  | Some row =>
      let attempts := attempts row in
      let max_retries := max_retries row in
      if bool_decide (attempts >= max_retries) then
        (update_by_id job_id any_row (set_dead (isoformat now) error) s).1
      else
        let delay_seconds := backoff_base ^ attempts in
        let next_run := now + timedelta delay_seconds in
        (update_by_id job_id any_row
           (set_failed (isoformat now) (isoformat next_run) error) s).1
  end.

(** [Storage.get_job]. *)
Definition get_job (job_id : string) (s : Table) : option Job := s !! job_id.

(** [Storage.retry_dlq_job]: [conn.total_changes > 0] decides the result. *)
Definition retry_dlq_job (clock : datetime) (job_id : string) (reset_attempts : bool)
    (s : Table) : Table * bool :=
  let now := isoformat clock in
  let '(s', total_changes) :=
    if reset_attempts
    then update_by_id job_id is_dead (set_retried true now) s
    else update_by_id job_id is_dead (set_retried false now) s in
  if (0 <? total_changes)%nat then (s', true) else (s, false).

(** [Storage.delete_dlq_job]. *)
Definition delete_dlq_job (job_id : string) (s : Table) : Table * bool :=
  let '(s', total_changes) := delete_by_id job_id is_dead s in
  if (0 <? total_changes)%nat then (s', true) else (s, false).

(** [Storage.recover_abandoned_jobs]. *)
Definition recover_abandoned_jobs (clock : datetime) (threshold_seconds : Z)
    (s : Table) : Table :=
  let cutoff := isoformat (clock - timedelta threshold_seconds) in
  let abandoned_jobs := select_where (is_abandoned cutoff) s in
  match abandoned_jobs with
  | [] => s
  | _ :: _ => update_where (is_abandoned cutoff) set_recovered s
  end.

(** *** Sequences of operations *)


(** A call of one of the mutating operations, with its arguments and the
    clock reading it takes. *)
Inductive Op :=
  | Enqueue (clock : datetime) (job : JobSpec)
  | Acquire (clock : datetime) (worker_id : string)
  | Complete (clock : datetime) (job_id : string)
  | Fail (clock : datetime) (job_id error : string) (backoff_base : Z)
  | RecoverAbandoned (clock : datetime) (threshold_seconds : Z)
  | RetryDlq (clock : datetime) (job_id : string) (reset_attempts : bool)
  | DeleteDlq (job_id : string).

(** The table an operation commits. *)
Definition apply_op (op : Op) (s : Table) : Table :=
  match op with
  | Enqueue clock job => (enqueue_job clock job s).1
  | Acquire clock worker_id => (acquire_job clock worker_id s).1
  | Complete clock job_id => update_job_success clock job_id s
  | Fail clock job_id error backoff_base =>
      update_job_failure clock job_id error backoff_base s
  | RecoverAbandoned clock threshold_seconds =>
      recover_abandoned_jobs clock threshold_seconds s
  | RetryDlq clock job_id reset_attempts =>
      (retry_dlq_job clock job_id reset_attempts s).1
  | DeleteDlq job_id => (delete_dlq_job job_id s).1
  end.

(** The table after a sequence of operations, oldest first. *)
Fixpoint run_ops (ops : list Op) (s : Table) : Table :=
  match ops with
  | [] => s
  | op :: ops' => run_ops ops' (apply_op op s)
  end.

End Operations.

(** The lease columns agree with each other and with [state]. *)
Definition lease_consistent (r : Job) : Prop :=
  (is_Some (locked_by r) ↔ is_Some (locked_at r)) ∧
  (is_Some (locked_at r) ↔ state r = processing).

(** A job is ready when it is pending or failed and its [next_run_at] has
    passed. *)
Definition is_ready (now : string) (r : Job) : bool :=
  (bool_decide (state r = pending) || bool_decide (state r = failed)) &&
  String.leb (next_run_at r) now.

(** *** Read-only queries *)

(** The text stored in the [state] column. *)
Definition state_name (st : State) : string :=
  match st with
  | pending => "pending"
  | processing => "processing"
  | completed => "completed"
  | failed => "failed"
  | dead => "dead"
  end.

(** [WHERE state = ?] *)
Definition has_state (name : string) (r : Job) : bool :=
  bool_decide (state_name (state r) = name).

(** [ORDER BY created_at DESC]. *)
Definition created_ge (r1 r2 : string * Job) : Prop :=
  Text.le (created_at r2.2) (created_at r1.2).

#[global] Instance created_ge_dec r1 r2 : Decision (created_ge r1 r2).
Proof. unfold created_ge. apply _. Defined.




(** [SELECT state, COUNT( * ) FROM jobs GROUP BY state], read into a
    dictionary. *)
Definition count_by_state (s : Table) : gmap string nat :=
  foldr (λ (r : string * Job) counts,
           <[state_name (state r.2) :=
               S (default 0%nat (counts !! state_name (state r.2)))]> counts)
        ∅ (map_to_list s).

(** [dict.setdefault]. *)
Definition setdefault (key : string) (value : nat) (d : gmap string nat)
    : gmap string nat :=
  match d !! key with
  | Some _ => d
  | None => <[key := value]> d
  end.

(** [Storage.get_job_counts]. *)
Definition get_job_counts (s : Table) : gmap string nat :=
  foldl (λ counts name, setdefault name 0%nat counts) (count_by_state s)
        ["pending"; "processing"; "completed"; "failed"; "dead"]%string.

(** *** The config table *)

Abbreviation ConfigTable := (gmap string string).

(** [Storage.set_config]: INSERT OR REPLACE. *)
Definition set_config (key value : string) (c : ConfigTable) : ConfigTable :=
  <[key := value]> c.

(** [Storage.get_config]. *)
Definition get_config (key : string) (default : option string) (c : ConfigTable)
    : option string :=
  match c !! key with
  | Some value => Some value
  | None => default
  end.

(** [Storage.get_all_config]. *)
Definition get_all_config (c : ConfigTable) : ConfigTable := c.

(** *** The workers table *)

Record WorkerRow := mkWorkerRow {
  pid : Z;
  started_at : string;
  last_heartbeat : string
}.

Abbreviation WorkerTable := (gmap string WorkerRow).

(** [ORDER BY started_at]. *)
Definition started_le (w1 w2 : string * WorkerRow) : Prop :=
  Text.le (started_at w1.2) (started_at w2.2).

#[global] Instance started_le_dec w1 w2 : Decision (started_le w1 w2).
Proof. unfold started_le. apply _. Defined.

(** [Storage.unregister_worker]. *)
Definition unregister_worker (worker_id : string) (w : WorkerTable) : WorkerTable :=
  delete worker_id w.

(** [Storage.get_active_workers]. *)
Definition get_active_workers (w : WorkerTable) : list (string * WorkerRow) :=
  merge_sort started_le (map_to_list w).

Section MoreOperations.

Variable isoformat : datetime → string.

(** [Storage.register_worker]: INSERT OR REPLACE. *)
Definition register_worker (clock : datetime) (worker_id : string) (pid : Z)
    (w : WorkerTable) : WorkerTable :=
  let now := isoformat clock in
  <[worker_id := {| pid := pid; started_at := now; last_heartbeat := now |}]> w.

(** [Storage.update_worker_heartbeat]. *)
Definition update_worker_heartbeat (clock : datetime) (worker_id : string)
    (w : WorkerTable) : WorkerTable :=
  let now := isoformat clock in
  match w !! worker_id with
  | Some row =>
      <[worker_id := {| pid := pid row; started_at := started_at row;
                        last_heartbeat := now |}]> w
  | None => w
  end.

(** Calls of [acquire_job] one after the other, as the workers make them;
    the result lists the ids of the jobs handed out, first call first. *)
Fixpoint acquire_all (calls : list (datetime * string)) (s : Table)
    : Table * list string :=
  match calls with
  | [] => (s, [])
  | (clock, worker_id) :: calls' =>
      match acquire_job isoformat clock worker_id s with
      | (s1, Some (job_id, _)) =>
          let '(s2, ids) := acquire_all calls' s1 in (s2, job_id :: ids)
      | (s1, None) => acquire_all calls' s1
      end
  end.

End MoreOperations.

End Storage.

(** ** The executor *)

Module Executor.

Import Datetime.

(** The exceptions [subprocess.run] can raise, by the [except] clause that
    catches them; each carries its [str]. *)
Inductive exn :=
  | TimeoutExpired
  | FileNotFoundError (msg : string)
  | OtherException (msg : string).

(** A call either returns or raises. *)
Inductive outcome (A : Type) :=
  | Return (a : A)
  | Raise (e : exn).
Arguments Return {A} a.
Arguments Raise {A} e.

(** [try: body except ...: handler]. *)
Definition try_except {A} (body : outcome A) (handler : exn → outcome A) : outcome A :=
  match body with
  | Return a => Return a
  | Raise e => handler e
  end.

(** [subprocess.CompletedProcess] with captured text output. *)
Record CompletedProcess := mkCompletedProcess {
  cp_returncode : Z;
  cp_stdout : string;
  cp_stderr : string
}.

Section Execute.

(** Readings of [time.time()] and their subtraction. *)
Variable float : Type.
Variable fsub : float → float → float.

Record ExecutionResult := mkExecutionResult {
  returncode : Z;
  stdout : string;
  stderr : string;
  duration : float
}.

(** [subprocess.run(command, shell=True, capture_output=True, text=True,
    timeout=timeout)]. *)
Variable subprocess_run : string → Z → outcome CompletedProcess.

(** [Executor.execute]; [start_time] and [end_time] are the two clock
    readings of the call. *)
Definition execute (timeout : Z) (command : string) (start_time end_time : float)
    : outcome ExecutionResult :=
  try_except
    (match subprocess_run command timeout with
     | Return result =>
         let duration := fsub end_time start_time in
         Return {| returncode := cp_returncode result;
                   stdout := cp_stdout result;
                   stderr := cp_stderr result;
                   duration := duration |}
     | Raise e => Raise e
     end)
    (λ e,
       let duration := fsub end_time start_time in
       match e with
       | TimeoutExpired =>
           Return {| returncode := -1; stdout := "";
                     stderr := "Command timed out after " ++ str timeout ++ " seconds";
                     duration := duration |}
       | FileNotFoundError msg =>
           Return {| returncode := 127; stdout := "";
                     stderr := "Command not found: " ++ msg;
                     duration := duration |}
       | OtherException msg =>
           Return {| returncode := -1; stdout := "";
                     stderr := "Execution error: " ++ msg;
                     duration := duration |}
       end).

End Execute.

Arguments returncode {float} _.
Arguments stdout {float} _.
Arguments stderr {float} _.
Arguments duration {float} _.

End Executor.

(** ** The configuration manager *)

Module Config.

Import Storage.

(** [DEFAULT_CONFIG], in the order of the dictionary. *)
Definition DEFAULT_CONFIG : list (string * string) :=
  [("max_retries", "3"); ("backoff_base", "2"); ("worker_default_count", "1");
   ("abandoned_threshold", "3600"); ("poll_interval", "1.0");
   ("log_level", "INFO")]%string.

(** [d.get(key, default)] on a dictionary given by its items. *)
Definition dict_get (d : list (string * string)) (key : string)
    (default : option string) : option string :=
  match (list_to_map d : gmap string string) !! key with
  | Some value => Some value
  | None => default
  end.

(** [Config._ensure_defaults], which [Config(storage)] runs. *)
Definition ensure_defaults (c : ConfigTable) : ConfigTable :=
  let existing := get_all_config c in
  foldl (λ acc (kv : string * string),
           if bool_decide (existing !! kv.1 = None)
           then set_config kv.1 kv.2 acc else acc)
        c DEFAULT_CONFIG.

(** [Config.get]. *)
Definition get (key : string) (default : option string) (c : ConfigTable)
    : option string :=
  match get_config key None c with
  | Some value => Some value
  | None => dict_get DEFAULT_CONFIG key default
  end.

(** [Config.set]. *)
Definition set (key value : string) (c : ConfigTable) : ConfigTable :=
  set_config key value c.

(** [Config.get_all]. *)
Definition get_all (c : ConfigTable) : ConfigTable := get_all_config c.

End Config.

(** ** The worker *)

Module Worker.

Import Datetime Storage Executor.

(** The database file: the three tables. *)
Record Db := mkDb {
  jobs : gmap string Job;
  config : ConfigTable;
  workers : WorkerTable
}.

Section Run.

Variable isoformat : datetime → string.
Variable float : Type.
Variable fsub : float → float → float.

(** What one pass of the loop in [Worker.run] meets: the clock readings of
    its calls and what [subprocess.run] does with the command. *)
Record Tick := mkTick {
  acquire_clock : datetime;
  subprocess_run : string → Z → outcome CompletedProcess;
  start_time : float;
  end_time : float;
  outcome_clock : datetime;
  heartbeat_clock : datetime
}.

(** [result.stderr[:500] if result.stderr else f"Exit code: {result.returncode}"];
    the characters of the text are the characters of the string. *)
Definition error_message (result : ExecutionResult float) : string :=
  if bool_decide (stderr result ≠ ""%string)
  then substring 0 500 (stderr result)
  else ("Exit code: " ++ str (returncode result))%string.

(** The update of the job after its run. *)
Definition record_outcome (clock : datetime) (job_id : string) (backoff_base : Z)
    (result : ExecutionResult float) (s : Table) : Table :=
  if bool_decide (returncode result = 0)
  then update_job_success isoformat clock job_id s
  else update_job_failure isoformat clock job_id (error_message result)
         backoff_base s.

(** [self.job_limit and self.jobs_processed >= self.job_limit] *)
Definition limit_reached (job_limit : option Z) (jobs_processed : Z) : bool :=
  match job_limit with
  | Some limit => bool_decide (limit ≠ 0) && bool_decide (jobs_processed >= limit)
  | None => false
  end.

(** The loop of [Worker.run].  [ticks] are the passes made before the
    shutdown flag is seen set; the loop also ends when the job limit is
    reached, and when an exception leaves the body.  [Executor()] has the
    timeout 3600.  The second component is [jobs_processed]. *)
Fixpoint loop (worker_id : string) (backoff_base : Z) (job_limit : option Z)
    (ticks : list Tick) (jobs_processed : Z) (db : Db) : Db * Z :=
  match ticks with
  | [] => (db, jobs_processed)
  | tick :: ticks' =>
      if limit_reached job_limit jobs_processed then (db, jobs_processed)
      else
        match acquire_job isoformat (acquire_clock tick) worker_id (jobs db) with
        | (jobs1, Some (job_id, job)) =>
            match execute float fsub (subprocess_run tick) 3600 (command job)
                    (start_time tick) (end_time tick) with
            | Return result =>
                let jobs2 :=
                  record_outcome (outcome_clock tick) job_id backoff_base
                    result jobs1 in
                loop worker_id backoff_base job_limit ticks'
                  (jobs_processed + 1)
                  {| jobs := jobs2; config := config db;
                     workers := update_worker_heartbeat isoformat
                                  (heartbeat_clock tick) worker_id (workers db) |}
            | Raise _ =>
                ({| jobs := jobs1; config := config db; workers := workers db |},
                 jobs_processed)
            end
        | (jobs1, None) =>
            loop worker_id backoff_base job_limit ticks' jobs_processed
              {| jobs := jobs1; config := config db;
                 workers := update_worker_heartbeat isoformat
                              (heartbeat_clock tick) worker_id (workers db) |}
        end
  end.

(** [Worker.run]: the defaults of the configuration are written, the worker
    is registered, the loop runs, and the worker is unregistered in the
    [finally] clause. *)
Definition run (worker_id : string) (os_pid : Z) (backoff_base : Z)
    (job_limit : option Z) (register_clock : datetime) (ticks : list Tick)
    (db : Db) : Db * Z :=
  let registered :=
    {| jobs := jobs db;
       config := Config.ensure_defaults (config db);
       workers := register_worker isoformat register_clock worker_id os_pid
                    (workers db) |} in
  let '(db', jobs_processed) :=
    loop worker_id backoff_base job_limit ticks 0 registered in
  ({| jobs := jobs db'; config := config db';
      workers := unregister_worker worker_id (workers db') |},
   jobs_processed).

End Run.

Arguments acquire_clock {float} _.
Arguments subprocess_run {float} _.
Arguments start_time {float} _.
Arguments end_time {float} _.
Arguments outcome_clock {float} _.
Arguments heartbeat_clock {float} _.

End Worker.

(** ** Sample data for the examples *)

Module Sample.

Import Datetime Storage.

(** A numeral padded with zeros on the left to [width] characters. *)
Definition digits (width : nat) (n : Z) : string :=
  let d := str n in
  String.concat "" (replicate (width - String.length d) "0"%string) ++ d.

(** [datetime.isoformat()] for a reading in UTC between the years 1970 and
    9999: [YYYY-MM-DDTHH:MM:SS+00:00], with [.ffffff] after the seconds when
    the microseconds are not zero. *)
Definition isoformat (t : datetime) : string :=
  let us := t mod 1000000 in
  let secs := t / 1000000 in
  let days := secs / 86400 in
  let sod := secs mod 86400 in
  let z := days + 719468 in
  let era := z / 146097 in
  let doe := z mod 146097 in
  let yoe := (doe - doe / 1460 + doe / 36524 - doe / 146096) / 365 in
  let doy := doe - (365 * yoe + yoe / 4 - yoe / 100) in
  let mp := (5 * doy + 2) / 153 in
  let day := doy - (153 * mp + 2) / 5 + 1 in
  let month := if mp <? 10 then mp + 3 else mp - 9 in
  let year := yoe + era * 400 + (if month <=? 2 then 1 else 0) in
  digits 4 year ++ "-" ++ digits 2 month ++ "-" ++ digits 2 day ++ "T" ++
  digits 2 (sod / 3600) ++ ":" ++ digits 2 (sod mod 3600 / 60) ++ ":" ++
  digits 2 (sod mod 60) ++
  (if us =? 0 then "" else "." ++ digits 6 us) ++ "+00:00".

(** 2024-01-01T00:00:00+00:00 and a number of seconds after it. *)
Definition t0 : datetime := 1704067200000000.
Definition at_second (n : Z) : datetime := t0 + timedelta n.

Definition job (id : string) (max_retries : Z) : JobSpec :=
  {| job_id := id; job_command := "exit 1";
     job_max_retries := Some max_retries; job_next_run_at := None |}.

(** Two jobs enqueued one second apart. *)
Definition two_jobs : Table :=
  run_ops isoformat
    [Enqueue (at_second 0) (job "j1" 1); Enqueue (at_second 1) (job "j2" 3)] ∅.

(** [j2] has been enqueued and acquired. *)
Definition one_acquired : Table :=
  run_ops isoformat
    [Enqueue (at_second 1) (job "j2" 3); Acquire (at_second 2) "w1"] ∅.

(** The row of [j2] in [one_acquired]. *)
Definition acquired_row : Job :=
  {| command := "exit 1"; state := processing; attempts := 1; max_retries := 3;
     created_at := "2024-01-01T00:00:01+00:00";
     updated_at := "2024-01-01T00:00:02+00:00";
     next_run_at := "2024-01-01T00:00:01+00:00";
     last_error := None;
     locked_by := Some "w1";
     locked_at := Some "2024-01-01T00:00:02+00:00" |}.


(** [j2] has been acquired and has failed once, with [backoff_base = 2]. *)
Definition one_failed : Table :=
  run_ops isoformat
    [Enqueue (at_second 1) (job "j2" 3); Acquire (at_second 2) "w1";
     Fail (at_second 3) "j2" "boom" 2] ∅.

(** The row of [j2] in [one_failed]. *)
Definition failed_row : Job :=
  {| command := "exit 1"; state := failed; attempts := 1; max_retries := 3;
     created_at := "2024-01-01T00:00:01+00:00";
     updated_at := "2024-01-01T00:00:03+00:00";
     next_run_at := "2024-01-01T00:00:05+00:00";
     last_error := Some "boom";
     locked_by := None; locked_at := None |}.

(** [j1] with [max_retries = 1] has been acquired and has failed. *)
Definition one_dead : Table :=
  run_ops isoformat
    [Enqueue (at_second 0) (job "j1" 1); Acquire (at_second 1) "w1";
     Fail (at_second 2) "j1" "boom" 2] ∅.

(** The row of [j1] in [one_dead]. *)
Definition dead_row : Job :=
  {| command := "exit 1"; state := dead; attempts := 1; max_retries := 1;
     created_at := "2024-01-01T00:00:00+00:00";
     updated_at := "2024-01-01T00:00:02+00:00";
     next_run_at := "2024-01-01T00:00:00+00:00";
     last_error := Some "boom";
     locked_by := None; locked_at := None |}.


End Sample.

(** * Properties *)

(** ** The order on TEXT values *)

Module TextFacts.

Import Text.

Lemma ascii_compare_refl x : Ascii.compare x x = Eq.
Proof. unfold Ascii.compare. apply N.compare_refl. Qed.

Lemma ascii_compare_lt_trans x y z :
  Ascii.compare x y = Lt → Ascii.compare y z = Lt → Ascii.compare x z = Lt.
Proof.
  unfold Ascii.compare. rewrite !N.compare_lt_iff. apply N.lt_trans.
Qed.

Lemma leb_trans a b c :
  String.leb a b = true → String.leb b c = true → String.leb a c = true.
Proof.
  revert b c. induction a as [|x a IH]; intros [|y b] [|z c]; try done.
  unfold String.leb in *. simpl.
  destruct (Ascii.compare x y) eqn:Hxy; destruct (Ascii.compare y z) eqn:Hyz;
    try done.
  - apply Ascii.compare_eq_iff in Hxy, Hyz. subst.
    rewrite ascii_compare_refl. apply IH.
  - apply Ascii.compare_eq_iff in Hxy. subst. by rewrite Hyz.
  - apply Ascii.compare_eq_iff in Hyz. subst. by rewrite Hxy.
  - by rewrite (ascii_compare_lt_trans x y z).
Qed.

#[global] Instance le_trans : Transitive le.
Proof. intros a b c. apply leb_trans. Qed.

#[global] Instance le_total : Total le.
Proof. intros a b. apply String.leb_total. Qed.

End TextFacts.

(** ** The SQL statements *)

Module SqlFacts.

Import Storage.

Lemma update_by_id_lookup job_id cond set (s : Table) k :
  (update_by_id job_id cond set s).1 !! k =
  if decide (k = job_id)
  then (λ r, if cond r then set r else r) <$> s !! k
  else s !! k.
Proof.
  unfold update_by_id. case_decide as Hk; [subst k|].
  - destruct (s !! job_id) as [row|] eqn:Hrow; [|done].
    simpl. destruct (cond row); simpl; [by rewrite lookup_insert_eq | by rewrite Hrow].
  - destruct (s !! job_id) as [row|]; [|done].
    destruct (cond row); simpl; [by rewrite lookup_insert_ne | done].
Qed.

Lemma update_by_id_found job_id cond set (s : Table) row :
  s !! job_id = Some row → cond row = true →
  update_by_id job_id cond set s = (<[job_id := set row]> s, 1%nat).
Proof. intros Hrow Hc. unfold update_by_id. by rewrite Hrow, Hc. Qed.

Lemma update_by_id_skipped job_id cond set (s : Table) :
  (∀ row, s !! job_id = Some row → cond row = false) →
  update_by_id job_id cond set s = (s, 0%nat).
Proof.
  intros Hc. unfold update_by_id.
  destruct (s !! job_id) as [row|] eqn:Hrow; [|done]. by rewrite (Hc row).
Qed.

Lemma update_where_lookup cond set (s : Table) k :
  update_where cond set s !! k = (λ r, if cond r then set r else r) <$> s !! k.
Proof. unfold update_where. apply lookup_fmap. Qed.

Lemma select_where_elem cond (s : Table) k row :
  (k, row) ∈ select_where cond s ↔ s !! k = Some row ∧ cond row = true.
Proof.
  unfold select_where. rewrite list_elem_of_filter, elem_of_map_to_list. simpl.
  rewrite Is_true_true. tauto.
Qed.

Lemma select_where_nil cond (s : Table) :
  select_where cond s = [] ↔ ∀ k row, s !! k = Some row → cond row = false.
Proof.
  split.
  - intros Hnil k row Hrow. destruct (cond row) eqn:Hc; [|done].
    assert ((k, row) ∈ select_where cond s) as Hin
      by (by apply select_where_elem).
    rewrite Hnil in Hin. by apply not_elem_of_nil in Hin.
  - intros Hall. destruct (select_where cond s) as [|[k row] l] eqn:Hsel; [done|].
    assert ((k, row) ∈ select_where cond s) as Hin
      by (rewrite Hsel; apply list_elem_of_here).
    apply select_where_elem in Hin as [Hrow Hc].
    rewrite (Hall k row Hrow) in Hc. done.
Qed.

#[global] Instance created_le_trans : Transitive created_le.
Proof. intros a b c. unfold created_le. apply TextFacts.le_trans. Qed.

#[global] Instance created_le_total : Total created_le.
Proof. intros a b. unfold created_le. apply TextFacts.le_total. Qed.

(** The first row of [ORDER BY created_at] is one of the rows and no row
    was created before it. *)
Lemma order_by_created_at_head rows first :
  head (order_by_created_at rows) = Some first →
  first ∈ rows ∧ ∀ r, r ∈ rows → created_le first r.
Proof.
  unfold order_by_created_at. intros Hhd.
  apply head_Some in Hhd as [rest Hsorted].
  pose proof (StronglySorted_merge_sort created_le rows) as Hss.
  pose proof (merge_sort_Permutation created_le rows) as Hperm.
  rewrite Hsorted in Hss, Hperm. split.
  - rewrite <- Hperm. apply list_elem_of_here.
  - intros r Hr. rewrite <- Hperm in Hr.
    apply StronglySorted_inv in Hss as [_ Hall].
    apply elem_of_cons in Hr as [->|Hr].
    + destruct (created_le_total first first); done.
    + rewrite Forall_forall in Hall. by apply Hall.
Qed.

Lemma order_by_created_at_nil rows :
  head (order_by_created_at rows) = None ↔ rows = [].
Proof.
  unfold order_by_created_at. rewrite head_None. split.
  - intros Hnil. apply Permutation_nil_r. rewrite <- Hnil.
    symmetry. apply merge_sort_Permutation.
  - by intros ->.
Qed.

End SqlFacts.

(** ** The operations of the storage engine *)

Section StorageFacts.

Import Datetime Storage SqlFacts.

Variable isoformat : datetime → string.

(** *** [acquire_job] *)

(** What a successful [acquire_job] did: the row it returns was pending
    with [next_run_at <= now], no pending row that is due was created before
    it, and it is now the only row that differs. *)
Lemma acquire_job_Some clock worker_id (s s' : Table) job_id job :
  acquire_job isoformat clock worker_id s = (s', Some (job_id, job)) →
  ∃ row,
    s !! job_id = Some row ∧
    is_available (isoformat clock) row = true ∧
    (∀ k r, s !! k = Some r → is_available (isoformat clock) r = true →
            Text.le (created_at row) (created_at r)) ∧
    job = set_acquired worker_id (isoformat clock) row ∧
    s' = <[job_id := job]> s.
Proof.
  unfold acquire_job. intros Hacq.
  destruct (head _) as [[k0 row]|] eqn:Hhd; [|done].
  apply order_by_created_at_head in Hhd as [Hin Hmin].
  apply select_where_elem in Hin as [Hrow Havail].
  simpl in Hacq.
  rewrite (update_by_id_found _ _ _ _ row) in Hacq by done.
  simpl in Hacq. rewrite lookup_insert_eq in Hacq. simpl in Hacq.
  injection Hacq as <- <- <-.
  exists row. split_and!; try done.
  intros k r Hr Hav.
  apply (Hmin (k, r)). by apply select_where_elem.
Qed.

(** [acquire_job] comes back empty exactly when no pending row is due, and
    then the table is as it was. *)
Lemma acquire_job_None clock worker_id (s : Table) :
  (acquire_job isoformat clock worker_id s).2 = None ↔
  ∀ k r, s !! k = Some r → is_available (isoformat clock) r = false.
Proof.
  unfold acquire_job. rewrite <- select_where_nil.
  rewrite <- order_by_created_at_nil.
  destruct (head _) as [[k0 row]|] eqn:Hhd; [|done].
  apply order_by_created_at_head in Hhd as [Hin _].
  apply select_where_elem in Hin as [Hrow Havail].
  simpl. rewrite (update_by_id_found _ _ _ _ row) by done.
  simpl. rewrite lookup_insert_eq. done.
Qed.

Lemma acquire_job_None_table clock worker_id (s : Table) :
  (acquire_job isoformat clock worker_id s).2 = None →
  (acquire_job isoformat clock worker_id s).1 = s.
Proof.
  unfold acquire_job.
  destruct (head _) as [[k0 row]|] eqn:Hhd; [|done].
  apply order_by_created_at_head in Hhd as [Hin _].
  apply select_where_elem in Hin as [Hrow Havail].
  simpl. rewrite (update_by_id_found _ _ _ _ row) by done.
  simpl. rewrite lookup_insert_eq. done.
Qed.

(** *** [update_job_failure] *)

Lemma update_job_failure_found clock job_id error backoff_base (s : Table) row :
  s !! job_id = Some row →
  update_job_failure isoformat clock job_id error backoff_base s =
  <[job_id :=
      if bool_decide (attempts row >= max_retries row)
      then set_dead (isoformat clock) error row
      else set_failed (isoformat clock)
             (isoformat (clock + timedelta (backoff_base ^ attempts row)))
             error row]> s.
Proof.
  intros Hrow. unfold update_job_failure. rewrite Hrow.
  case_bool_decide; by rewrite (update_by_id_found _ _ _ _ row).
Qed.

Lemma update_job_failure_missing clock job_id error backoff_base (s : Table) :
  s !! job_id = None →
  update_job_failure isoformat clock job_id error backoff_base s = s.
Proof. intros Hrow. unfold update_job_failure. by rewrite Hrow. Qed.

(** *** [update_job_success] *)

Lemma update_job_success_found clock job_id (s : Table) row :
  s !! job_id = Some row →
  update_job_success isoformat clock job_id s =
  <[job_id := set_completed (isoformat clock) row]> s.
Proof.
  intros Hrow. unfold update_job_success.
  by rewrite (update_by_id_found _ _ _ _ row).
Qed.

Lemma update_job_success_missing clock job_id (s : Table) :
  s !! job_id = None → update_job_success isoformat clock job_id s = s.
Proof.
  intros Hrow. unfold update_job_success.
  rewrite update_by_id_skipped; [done|]. intros row. by rewrite Hrow.
Qed.

(** *** [retry_dlq_job] and [delete_dlq_job] *)

Lemma retry_dlq_job_dead clock job_id reset_attempts (s : Table) row :
  s !! job_id = Some row → state row = dead →
  retry_dlq_job isoformat clock job_id reset_attempts s =
  (<[job_id := set_retried reset_attempts (isoformat clock) row]> s, true).
Proof.
  intros Hrow Hdead. unfold retry_dlq_job.
  assert (is_dead row = true) as Hc by by apply bool_decide_eq_true.
  destruct reset_attempts; by rewrite (update_by_id_found _ _ _ _ row).
Qed.

Lemma retry_dlq_job_not_dead clock job_id reset_attempts (s : Table) :
  (∀ row, s !! job_id = Some row → state row ≠ dead) →
  retry_dlq_job isoformat clock job_id reset_attempts s = (s, false).
Proof.
  intros Hnd. unfold retry_dlq_job.
  assert (∀ row, s !! job_id = Some row → is_dead row = false) as Hc.
  { intros row Hrow. apply bool_decide_eq_false. by apply Hnd. }
  destruct reset_attempts; by rewrite update_by_id_skipped.
Qed.

Lemma delete_dlq_job_table job_id (s : Table) :
  (delete_dlq_job job_id s).1 = s ∨ (delete_dlq_job job_id s).1 = delete job_id s.
Proof.
  unfold delete_dlq_job, delete_by_id.
  destruct (s !! job_id) as [row|]; [|by left].
  destruct (is_dead row); [by right | by left].
Qed.

(** *** [recover_abandoned_jobs] *)

Lemma recover_abandoned_jobs_lookup clock threshold_seconds (s : Table) k :
  recover_abandoned_jobs isoformat clock threshold_seconds s !! k =
  (λ r, if is_abandoned (isoformat (clock - timedelta threshold_seconds)) r
        then set_recovered r else r) <$> s !! k.
Proof.
  unfold recover_abandoned_jobs.
  destruct (select_where _ s) as [|r l] eqn:Hsel.
  - destruct (s !! k) as [row|] eqn:Hrow; [|done]. simpl.
    rewrite select_where_nil in Hsel. by rewrite (Hsel k row).
  - apply update_where_lookup.
Qed.

End StorageFacts.

(** ** The specification of the storage engine *)

Section StorageSpec.

Import Datetime Storage SqlFacts.

Variable isoformat : datetime → string.



(** C6.  [retry_dlq_job] changes the row of [job_id] only when that row is
    dead: the row becomes pending with [next_run_at] at the clock reading
    and no [last_error], its attempts are 0 when [reset_attempts] is set and
    as before otherwise, and the result is true.  When the row is missing
    or not dead the result is false and the table is as it was.  So the
    result is true exactly when the table changed. *)
Theorem retry_dlq_job_spec clock job_id reset_attempts (s : Table) :
  match s !! job_id with
  | Some row =>
      if decide (state row = dead) then
        ∃ row',
          retry_dlq_job isoformat clock job_id reset_attempts s =
            (<[job_id := row']> s, true) ∧
          state row' = pending ∧
          next_run_at row' = isoformat clock ∧
          last_error row' = None ∧
          attempts row' = (if reset_attempts then 0 else attempts row) ∧
          (attempts row' = 0 ∨ attempts row' = attempts row) ∧
          command row' = command row ∧ max_retries row' = max_retries row ∧
          created_at row' = created_at row ∧
          locked_by row' = locked_by row ∧ locked_at row' = locked_at row ∧
          <[job_id := row']> s ≠ s
      else retry_dlq_job isoformat clock job_id reset_attempts s = (s, false)
  | None => retry_dlq_job isoformat clock job_id reset_attempts s = (s, false)
  end.
Proof.
  destruct (s !! job_id) as [row|] eqn:Hrow.
  - case_decide as Hdead.
    + rewrite (retry_dlq_job_dead _ _ _ _ _ row Hrow Hdead).
      eexists. split; [reflexivity|]. simpl. split_and!; try done.
      * destruct reset_attempts; auto.
      * intros Heq.
        assert (<[job_id := set_retried reset_attempts (isoformat clock) row]> s
                  !! job_id = Some row) as Hl by by rewrite Heq.
        rewrite lookup_insert_eq in Hl. injection Hl as Hl.
        apply (f_equal state) in Hl. simpl in Hl. congruence.
    + apply retry_dlq_job_not_dead. intros row0. rewrite Hrow. congruence.
  - apply retry_dlq_job_not_dead. intros row0. rewrite Hrow. congruence.
Qed.

(** C7.  [recover_abandoned_jobs] looks at every row on its own.  A row
    that is processing with [locked_at] before the clock reading minus the
    threshold becomes pending with [locked_by] and [locked_at] cleared, and
    its attempts and all its other columns stay.  Any other row stays as it
    is, and no row appears or disappears. *)
Theorem recover_abandoned_jobs_spec clock threshold_seconds (s : Table) k row :
  s !! k = Some row →
  let cutoff := isoformat (clock - timedelta threshold_seconds) in
  let selected :=
    state row = processing ∧ ∃ t, locked_at row = Some t ∧ Text.lt t cutoff in
  let s' := recover_abandoned_jobs isoformat clock threshold_seconds s in
  (selected →
     ∃ row',
       s' !! k = Some row' ∧
       state row' = pending ∧
       locked_by row' = None ∧ locked_at row' = None ∧
       attempts row' = attempts row ∧
       max_retries row' = max_retries row ∧
       command row' = command row ∧
       created_at row' = created_at row ∧
       updated_at row' = updated_at row ∧
       next_run_at row' = next_run_at row ∧
       last_error row' = last_error row) ∧
  (¬ selected → s' !! k = Some row) ∧
  dom s' = dom s.
Proof.
  intros Hrow cutoff selected s'. subst selected s'. split_and!.
  - intros [Hst [t [Ht Hlt]]].
    rewrite recover_abandoned_jobs_lookup, Hrow. fold cutoff. simpl.
    unfold is_abandoned. rewrite bool_decide_eq_true_2, Ht by done. simpl.
    unfold Text.lt in Hlt. rewrite Hlt.
    eexists. split; [reflexivity|]. done.
  - intros Hsel.
    rewrite recover_abandoned_jobs_lookup, Hrow. fold cutoff. simpl.
    unfold is_abandoned.
    case_bool_decide as Hst; [|done]. simpl.
    destruct (locked_at row) as [t|] eqn:Ht; [|done].
    destruct (String.ltb t cutoff) eqn:Hlt; [|done].
    exfalso. apply Hsel. split; [done|]. by exists t.
  - apply set_eq. intros i. rewrite !elem_of_dom.
    rewrite recover_abandoned_jobs_lookup. by rewrite fmap_is_Some.
Qed.

(** C8.  [update_job_success] makes the row completed, clears [locked_by]
    and [locked_at] and sets [updated_at] to the clock reading.  Completing
    the same job a second time gives the table that one completion at the
    second clock reading gives: against the first completion the state, the
    lease columns and every other column but [updated_at] are the same, and
    the whole table is the same when the two readings render alike. *)
Theorem update_job_success_idempotent clock1 clock2 job_id (s : Table) row :
  s !! job_id = Some row →
  let once := update_job_success isoformat clock1 job_id s in
  let twice := update_job_success isoformat clock2 job_id once in
  (∃ row1,
     once !! job_id = Some row1 ∧
     state row1 = completed ∧
     locked_by row1 = None ∧ locked_at row1 = None ∧
     updated_at row1 = isoformat clock1) ∧
  twice = update_job_success isoformat clock2 job_id s ∧
  (isoformat clock2 = isoformat clock1 → twice = once) ∧
  (∀ k, k ≠ job_id → twice !! k = once !! k) ∧
  (∃ row1 row2,
     once !! job_id = Some row1 ∧ twice !! job_id = Some row2 ∧
     state row2 = state row1 ∧
     locked_by row2 = locked_by row1 ∧ locked_at row2 = locked_at row1 ∧
     attempts row2 = attempts row1 ∧ max_retries row2 = max_retries row1 ∧
     command row2 = command row1 ∧ created_at row2 = created_at row1 ∧
     next_run_at row2 = next_run_at row1 ∧ last_error row2 = last_error row1 ∧
     updated_at row2 = isoformat clock2).
Proof.
  intros Hrow once twice. subst twice once.
  rewrite (update_job_success_found _ clock1 _ _ row Hrow).
  rewrite (update_job_success_found _ clock2 _ _
             (set_completed (isoformat clock1) row))
    by by rewrite lookup_insert_eq.
  rewrite (update_job_success_found _ clock2 _ _ row Hrow).
  rewrite insert_insert_eq.
  split_and!.
  - eexists. rewrite lookup_insert_eq. done.
  - done.
  - intros Heq. unfold set_completed. by rewrite Heq.
  - intros k Hk. by rewrite !lookup_insert_ne.
  - do 2 eexists. rewrite !lookup_insert_eq. done.
Qed.

(** C10.  [update_job_success] does not look at the state of the row.  On
    a row in any state it makes the row completed, clears [locked_by] and
    [locked_at], sets [updated_at] to the clock reading and keeps the other
    columns; for an id that is not in the table it gives back the table as
    it was.  Rows under other ids never change. *)
Theorem update_job_success_unconditional clock job_id (s : Table) :
  match s !! job_id with
  | Some row =>
      ∃ row',
        update_job_success isoformat clock job_id s = <[job_id := row']> s ∧
        state row' = completed ∧
        locked_by row' = None ∧ locked_at row' = None ∧
        updated_at row' = isoformat clock ∧
        attempts row' = attempts row ∧ max_retries row' = max_retries row ∧
        command row' = command row ∧ created_at row' = created_at row ∧
        next_run_at row' = next_run_at row ∧ last_error row' = last_error row
  | None => update_job_success isoformat clock job_id s = s
  end ∧
  ∀ k, k ≠ job_id →
       update_job_success isoformat clock job_id s !! k = s !! k.
Proof.
  split.
  - destruct (s !! job_id) as [row|] eqn:Hrow.
    + rewrite (update_job_success_found _ _ _ _ row Hrow).
      eexists. split; [reflexivity|]. done.
    + by apply update_job_success_missing.
  - intros k Hk. unfold update_job_success.
    rewrite update_by_id_lookup. by case_decide.
Qed.

End StorageSpec.

(** ** Properties of every table the operations can produce *)

Section Invariants.

Import Datetime Storage SqlFacts.

Variable isoformat : datetime → string.

(** A property of rows that the row written by [enqueue_job] has and that
    every SET clause keeps, on the rows its WHERE clause selects. *)
Variable P : Job → Prop.

Hypothesis P_enqueued : ∀ cmd retries now next_run,
  P {| command := cmd; state := pending; attempts := 0;
       max_retries := retries; created_at := now; updated_at := now;
       next_run_at := next_run; last_error := None;
       locked_by := None; locked_at := None |}.
Hypothesis P_acquired : ∀ worker_id now r,
  P r → state r = pending → P (set_acquired worker_id now r).
Hypothesis P_completed : ∀ now r, P r → P (set_completed now r).
Hypothesis P_dead : ∀ now error r, P r → P (set_dead now error r).
Hypothesis P_failed : ∀ now next_run error r,
  P r → P (set_failed now next_run error r).
Hypothesis P_retried : ∀ reset now r,
  P r → state r = dead → P (set_retried reset now r).
Hypothesis P_recovered : ∀ r,
  P r → state r = processing → P (set_recovered r).

Lemma apply_op_keeps op (s : Table) :
  map_Forall (λ _, P) s → map_Forall (λ _, P) (apply_op isoformat op s).
Proof.
  intros Hs.
  destruct op as [clock job|clock w|clock jid|clock jid err base
                 |clock thr|clock jid reset|jid]; simpl.
  - unfold enqueue_job. destruct (s !! job_id job); [done|]. simpl.
    apply map_Forall_insert_2; [apply P_enqueued | done].
  - destruct (acquire_job isoformat clock w s) as [s' [[jid j]|]] eqn:Hacq.
    + apply acquire_job_Some in Hacq as (row & Hrow & Hav & _ & -> & ->).
      simpl. apply map_Forall_insert_2; [|done].
      apply andb_prop in Hav as [Hst _]. apply bool_decide_eq_true in Hst.
      apply P_acquired; [by apply (Hs jid) | done].
    + pose proof (acquire_job_None_table isoformat clock w s) as Hsame.
      rewrite Hacq in Hsame. simpl in *. by rewrite Hsame.
  - destruct (s !! jid) as [row|] eqn:Hrow.
    + rewrite (update_job_success_found _ _ _ _ row Hrow).
      apply map_Forall_insert_2; [|done]. apply P_completed. by apply (Hs jid).
    + by rewrite update_job_success_missing.
  - destruct (s !! jid) as [row|] eqn:Hrow.
    + rewrite (update_job_failure_found _ _ _ _ _ _ row Hrow).
      apply map_Forall_insert_2; [|done].
      case_bool_decide; [apply P_dead | apply P_failed]; by apply (Hs jid).
    + by rewrite update_job_failure_missing.
  - intros k r. rewrite recover_abandoned_jobs_lookup.
    destruct (s !! k) as [row|] eqn:Hrow; [|done]. simpl.
    intros [= <-]. destruct (is_abandoned _ row) eqn:Hab; [|by apply (Hs k)].
    apply andb_prop in Hab as [Hst _]. apply bool_decide_eq_true in Hst.
    apply P_recovered; [by apply (Hs k) | done].
  - destruct (s !! jid) as [row|] eqn:Hrow.
    + destruct (decide (state row = dead)) as [Hdead|Hnd].
      * rewrite (retry_dlq_job_dead _ _ _ _ _ row Hrow Hdead). simpl.
        apply map_Forall_insert_2; [|done].
        apply P_retried; [by apply (Hs jid) | done].
      * rewrite retry_dlq_job_not_dead; [done|].
        intros row0. rewrite Hrow. congruence.
    + rewrite retry_dlq_job_not_dead; [done|]. intros row0. by rewrite Hrow.
  - destruct (delete_dlq_job_table jid s) as [-> | ->]; [done|].
    by apply map_Forall_delete.
Qed.

Lemma run_ops_keeps ops (s : Table) :
  map_Forall (λ _, P) s → map_Forall (λ _, P) (run_ops isoformat ops s).
Proof.
  revert s. induction ops as [|op ops IH]; intros s Hs; simpl; [done|].
  apply IH. by apply apply_op_keeps.
Qed.

End Invariants.

Section Reachable.

Import Datetime Storage SqlFacts.

Local Ltac lease_cases :=
  intros; rewrite <- ?not_eq_None_Some in *; simpl in *; intuition congruence.

Variable isoformat : datetime → string.

(** X5.  In every table reached from the empty one, the attempts counter
    of every row is zero or more. *)
Lemma attempts_nonneg ops k row :
  run_ops isoformat ops ∅ !! k = Some row → 0 <= attempts row.
Proof.
  intros Hrow.
  refine (run_ops_keeps isoformat (λ r, 0 <= attempts r) _ _ _ _ _ _ _
            ops ∅ _ k row Hrow); simpl; intros; try lia.
  - destruct reset; lia.
  - apply map_Forall_empty.
Qed.

(** C4.  In every table reached from the empty one by a sequence of
    [enqueue_job], [acquire_job], [update_job_success],
    [update_job_failure], [recover_abandoned_jobs], [retry_dlq_job] and
    [delete_dlq_job], each row has [locked_by] set exactly when [locked_at]
    is set, and that exactly when its state is processing. *)
Theorem lease_invariant ops k row :
  run_ops isoformat ops ∅ !! k = Some row →
  (is_Some (locked_by row) ↔ is_Some (locked_at row)) ∧
  (is_Some (locked_at row) ↔ state row = processing).
Proof.
  intros Hrow.
  refine (run_ops_keeps isoformat lease_consistent _ _ _ _ _ _ _
            ops ∅ _ k row Hrow); unfold lease_consistent; simpl.
  - lease_cases.
  - lease_cases.
  - lease_cases.
  - lease_cases.
  - lease_cases.
  - intros reset now r [H1 H2] Hdead. rewrite Hdead in H2.
    split; [done|]. split; [|done]. intros Hl. by apply H2 in Hl.
  - lease_cases.
  - apply map_Forall_empty.
Qed.

End Reachable.

(** ** Acquisition and the retry budget *)

Section RetryBudget.

Import Datetime Storage SqlFacts.

Variable isoformat : datetime → string.


End RetryBudget.

Module Scenarios.

Import Datetime Storage Sample.

(** C1, where the code departs from it.  In [one_failed] the only job is
    failed and its [next_run_at] (00:00:05) is before the clock reading
    (00:01:00), so it is ready; [acquire_job] gives back nothing and
    leaves the table as it is. *)
Theorem acquire_job_skips_failed :
  (∃ row, one_failed !! "j2" = Some row ∧
          state row = failed ∧
          next_run_at row = "2024-01-01T00:00:05+00:00" ∧
          is_ready (isoformat (at_second 60)) row = true) ∧
  isoformat (at_second 60) = "2024-01-01T00:01:00+00:00" ∧
  acquire_job isoformat (at_second 60) "w2" one_failed = (one_failed, None).
Proof.
  split; [|split].
  - eexists. split; [vm_compute; reflexivity|]. vm_compute. done.
  - vm_compute. reflexivity.
  - vm_compute. reflexivity.
Qed.

(** Of two pending jobs that are due, [acquire_job] takes the one created
    first and leaves the other as it is. *)
Example acquire_job_oldest_first :
  let r := acquire_job isoformat (at_second 2) "w1" two_jobs in
  (fst <$> r.2) = Some "j1"%string ∧
  (state <$> r.1 !! "j1") = Some processing ∧
  (attempts <$> r.1 !! "j1") = Some 1 ∧
  (locked_by <$> r.1 !! "j1") = Some (Some "w1"%string) ∧
  r.1 !! "j2" = two_jobs !! "j2".
Proof. vm_compute. split_and!; reflexivity. Qed.


End Scenarios.

(** ** The executor *)

Section ExecutorSpec.

Import Datetime Executor.

Variable float : Type.
Variable fsub : float → float → float.
Variable subprocess_run : string → Z → outcome CompletedProcess.

(** C9.  [execute] returns a result for every command, whatever
    [subprocess.run] does: the exit code and the output of the subprocess
    when it ran, returncode -1 and a message giving the timeout when it
    timed out, returncode 127 when the command was not found, and
    returncode -1 with the message of the exception for any other one. *)
Theorem execute_never_raises timeout command start_time end_time :
  ∃ result,
    execute float fsub subprocess_run timeout command start_time end_time
      = Return result ∧
    duration result = fsub end_time start_time ∧
    match subprocess_run command timeout with
    | Return completed =>
        returncode result = cp_returncode completed ∧
        stdout result = cp_stdout completed ∧
        stderr result = cp_stderr completed
    | Raise TimeoutExpired =>
        returncode result = -1 ∧ stdout result = "" ∧
        stderr result =
          ("Command timed out after " ++ str timeout ++ " seconds")%string
    | Raise (FileNotFoundError msg) =>
        returncode result = 127 ∧ stdout result = "" ∧
        stderr result = ("Command not found: " ++ msg)%string
    | Raise (OtherException msg) =>
        returncode result = -1 ∧ stdout result = "" ∧
        stderr result = ("Execution error: " ++ msg)%string
    end.
Proof.
  unfold execute.
  destruct (subprocess_run command timeout) as [completed|[|msg|msg]];
    simpl; eexists; (split; [reflexivity|]); done.
Qed.

End ExecutorSpec.

Module ExecutorExamples.

Import Datetime Executor.

(** A run that times out, with the default timeout of [Executor()]. *)
Example execute_timeout :
  execute Z Z.sub (λ _ _, Raise TimeoutExpired) 3600 "sleep 7200" 10 3610 =
  Return {| returncode := -1; stdout := "";
            stderr := "Command timed out after 3600 seconds";
            duration := 3600 |}.
Proof. reflexivity. Qed.

(** A run that ends on its own gives the exit code of the subprocess. *)
Example execute_exit_code :
  execute Z Z.sub (λ _ _, Return (mkCompletedProcess 1 "" "")) 3600 "exit 1" 10 11 =
  Return {| returncode := 1; stdout := ""; stderr := ""; duration := 1 |}.
Proof. reflexivity. Qed.

End ExecutorExamples.

(** ** The theorems at work on sample tables *)

Module Witnesses.

Import Datetime Storage Sample.


Lemma recover_abandoned_jobs_spec_witness :
  one_acquired !! "j2" = Some acquired_row ∧
  ∃ row',
    recover_abandoned_jobs isoformat (at_second 7200) 3600 one_acquired
      !! "j2" = Some row' ∧
    state row' = pending ∧ locked_by row' = None ∧ locked_at row' = None ∧
    attempts row' = attempts acquired_row.
Proof.
  assert (one_acquired !! "j2" = Some acquired_row) as Hrow
    by (vm_compute; reflexivity).
  split; [exact Hrow|].
  destruct (recover_abandoned_jobs_spec isoformat (at_second 7200) 3600
              one_acquired "j2" acquired_row Hrow) as (Hsel & _ & _).
  destruct Hsel as (row' & Hrow' & Hst & Hby & Hat & Hatt & _).
  - split; [reflexivity|].
    exists "2024-01-01T00:00:02+00:00"%string.
    split; [reflexivity|]. vm_compute. reflexivity.
  - exists row'. repeat split; assumption.
Defined.

Lemma update_job_success_idempotent_witness :
  one_acquired !! "j2" = Some acquired_row ∧
  update_job_success isoformat (at_second 9) "j2"
    (update_job_success isoformat (at_second 8) "j2" one_acquired) =
  update_job_success isoformat (at_second 9) "j2" one_acquired.
Proof.
  assert (one_acquired !! "j2" = Some acquired_row) as Hrow
    by (vm_compute; reflexivity).
  split; [exact Hrow|].
  destruct (update_job_success_idempotent isoformat (at_second 8)
              (at_second 9) "j2" one_acquired acquired_row Hrow)
    as (_ & Htwice & _).
  exact Htwice.
Defined.


Lemma lease_invariant_witness :
  run_ops isoformat
    [Enqueue (at_second 1) (job "j2" 3); Acquire (at_second 2) "w1"] ∅
    !! "j2" = Some acquired_row ∧
  (is_Some (locked_by acquired_row) ↔ is_Some (locked_at acquired_row)) ∧
  (is_Some (locked_at acquired_row) ↔ state acquired_row = processing).
Proof.
  assert (run_ops isoformat
            [Enqueue (at_second 1) (job "j2" 3); Acquire (at_second 2) "w1"] ∅
            !! "j2" = Some acquired_row) as Hrow
    by (vm_compute; reflexivity).
  split; [exact Hrow|].
  exact (lease_invariant isoformat _ "j2" acquired_row Hrow).
Defined.

End Witnesses.

(** * Further properties of the storage engine *)

Section StorageMore.

Import Datetime Storage SqlFacts.

Variable isoformat : datetime → string.

(** How one operation changes the row under one id. *)
Lemma apply_op_row op (s : Table) k :
  match s !! k with
  | None =>
      apply_op isoformat op s !! k = None ∨
      ∃ clock job row,
        op = Enqueue clock job ∧ k = job_id job ∧
        apply_op isoformat op s !! k = Some row ∧
        state row = pending ∧ attempts row = 0 ∧ last_error row = None ∧
        locked_by row = None ∧ locked_at row = None
  | Some row =>
      apply_op isoformat op s !! k = Some row ∨
      (∃ clock w, op = Acquire clock w ∧ state row = pending ∧
         apply_op isoformat op s !! k
           = Some (set_acquired w (isoformat clock) row)) ∨
      (∃ clock, op = Complete clock k ∧
         apply_op isoformat op s !! k
           = Some (set_completed (isoformat clock) row)) ∨
      (∃ clock error base, op = Fail clock k error base ∧
         (apply_op isoformat op s !! k
            = Some (set_dead (isoformat clock) error row) ∨
          ∃ next_run, apply_op isoformat op s !! k
            = Some (set_failed (isoformat clock) next_run error row))) ∨
      (∃ clock threshold, op = RecoverAbandoned clock threshold ∧
         state row = processing ∧
         apply_op isoformat op s !! k = Some (set_recovered row)) ∨
      (∃ clock reset, op = RetryDlq clock k reset ∧ state row = dead ∧
         apply_op isoformat op s !! k
           = Some (set_retried reset (isoformat clock) row)) ∨
      (op = DeleteDlq k ∧ state row = dead ∧
         apply_op isoformat op s !! k = None)
  end.
Proof.
  destruct op as [clock job|clock w|clock jid|clock jid err base
                 |clock thr|clock jid reset|jid]; simpl.
  - unfold enqueue_job. destruct (s !! job_id job) eqn:Hid; simpl.
    + destruct (s !! k); auto.
    + destruct (decide (k = job_id job)) as [->|Hk].
      * rewrite Hid, lookup_insert_eq. right. eauto 12.
      * rewrite lookup_insert_ne by done. destruct (s !! k); auto.
  - destruct (acquire_job isoformat clock w s) as [s' [[jid j]|]] eqn:Hacq.
    + apply acquire_job_Some in Hacq as (row & Hrow & Hav & _ & -> & ->).
      apply andb_prop in Hav as [Hst _]. apply bool_decide_eq_true in Hst.
      simpl. destruct (decide (k = jid)) as [->|Hk].
      * rewrite Hrow, lookup_insert_eq. right. left. eauto.
      * rewrite lookup_insert_ne by done. destruct (s !! k); auto.
    + pose proof (acquire_job_None_table isoformat clock w s) as Hsame.
      rewrite Hacq in Hsame. simpl in *. rewrite Hsame by done.
      destruct (s !! k); auto.
  - unfold update_job_success. rewrite update_by_id_lookup.
    case_decide as Hk; [subst k|destruct (s !! k); auto].
    destruct (s !! jid); simpl; [|auto]. right. right. left. eauto.
  - destruct (s !! jid) as [row|] eqn:Hrow.
    + rewrite (update_job_failure_found _ _ _ _ _ _ row Hrow).
      destruct (decide (k = jid)) as [->|Hk].
      * rewrite Hrow, lookup_insert_eq. do 3 right. left.
        exists clock, err, base. split; [done|].
        case_bool_decide; [left | right]; eauto.
      * rewrite lookup_insert_ne by done. destruct (s !! k); auto.
    + rewrite update_job_failure_missing by done. destruct (s !! k); auto.
  - rewrite recover_abandoned_jobs_lookup.
    destruct (s !! k) as [row|]; simpl; [|auto].
    destruct (is_abandoned _ row) eqn:Hab; [|auto].
    apply andb_prop in Hab as [Hst _]. apply bool_decide_eq_true in Hst.
    do 4 right. left. eauto.
  - destruct (s !! jid) as [row|] eqn:Hrow.
    + destruct (decide (state row = dead)) as [Hdead|Hnd].
      * rewrite (retry_dlq_job_dead _ _ _ _ _ row Hrow Hdead). simpl.
        destruct (decide (k = jid)) as [->|Hk].
        -- rewrite Hrow, lookup_insert_eq. do 5 right. left. eauto.
        -- rewrite lookup_insert_ne by done. destruct (s !! k); auto.
      * rewrite retry_dlq_job_not_dead; [simpl; destruct (s !! k); auto|].
        intros row0. rewrite Hrow. congruence.
    + rewrite retry_dlq_job_not_dead; [simpl; destruct (s !! k); auto|].
      intros row0. by rewrite Hrow.
  - unfold delete_dlq_job, delete_by_id.
    destruct (s !! jid) as [row|] eqn:Hrow; simpl; [|destruct (s !! k); auto].
    destruct (is_dead row) eqn:Hd; simpl; [|destruct (s !! k); auto].
    apply bool_decide_eq_true in Hd.
    destruct (decide (k = jid)) as [->|Hk].
    + rewrite Hrow, lookup_delete_eq. do 6 right. auto.
    + rewrite lookup_delete_ne by done. destruct (s !! k); auto.
Qed.

(** X1.  [acquire_job] on pending jobs.  When it returns a job, that job
    was pending with [next_run_at <= now], no pending job that is due was
    created before it, and its row is now processing, locked by the caller
    at [now], with one attempt more; no other row has changed.  When it
    returns nothing, no pending job is due and the table is as it was. *)
Theorem acquire_job_pending clock worker_id (s : Table) :
  let now := isoformat clock in
  match (acquire_job isoformat clock worker_id s).2 with
  | Some (job_id, job) =>
      ∃ row,
        s !! job_id = Some row ∧
        state row = pending ∧ Text.le (next_run_at row) now ∧
        (∀ k r, s !! k = Some r → state r = pending →
                Text.le (next_run_at r) now →
                Text.le (created_at row) (created_at r)) ∧
        state job = processing ∧
        locked_by job = Some worker_id ∧ locked_at job = Some now ∧
        attempts job = attempts row + 1 ∧ updated_at job = now ∧
        command job = command row ∧ max_retries job = max_retries row ∧
        created_at job = created_at row ∧
        next_run_at job = next_run_at row ∧
        last_error job = last_error row ∧
        (acquire_job isoformat clock worker_id s).1 = <[job_id := job]> s
  | None =>
      (acquire_job isoformat clock worker_id s).1 = s ∧
      ∀ k r, s !! k = Some r → state r = pending →
             ¬ Text.le (next_run_at r) now
  end.
Proof.
  intros now.
  destruct (acquire_job isoformat clock worker_id s) as [s' [[jid j]|]] eqn:Hacq;
    simpl.
  - apply acquire_job_Some in Hacq as (row & Hrow & Hav & Hmin & -> & ->).
    apply andb_prop in Hav as [Hst Hdue]. apply bool_decide_eq_true in Hst.
    exists row. split_and!; try done.
    intros k r Hr Hpend Hle. apply (Hmin k r Hr).
    unfold is_available. rewrite bool_decide_eq_true_2 by done. exact Hle.
  - pose proof (acquire_job_None_table isoformat clock worker_id s) as Hsame.
    pose proof (proj1 (acquire_job_None isoformat clock worker_id s)) as Hnone.
    rewrite Hacq in Hsame, Hnone. simpl in *. split; [by apply Hsame|].
    intros k r Hr Hpend Hle. specialize (Hnone eq_refl k r Hr).
    unfold is_available in Hnone. rewrite bool_decide_eq_true_2 in Hnone by done.
    unfold Text.le in Hle. fold now in Hnone. simpl in Hnone. congruence.
Qed.

Lemma acquire_all_inv calls (s s' : Table) ids :
  acquire_all isoformat calls s = (s', ids) →
  NoDup ids ∧
  (∀ id, id ∈ ids →
     ∃ r r', s !! id = Some r ∧ state r = pending ∧
             s' !! id = Some r' ∧ state r' = processing) ∧
  (∀ k r, s !! k = Some r → state r ≠ pending → s' !! k = Some r).
Proof.
  revert s s' ids. induction calls as [|[clock w] calls IH]; intros s s' ids.
  - simpl. intros [= <- <-]. split_and!; [constructor | | auto].
    intros id Hid. by apply elem_of_nil in Hid.
  - simpl.
    destruct (acquire_job isoformat clock w s) as [s1 [[jid j]|]] eqn:Hacq.
    + destruct (acquire_all isoformat calls s1) as [s2 ids'] eqn:Hrest.
      intros [= <- <-].
      apply acquire_job_Some in Hacq as (row & Hrow & Hav & _ & -> & ->).
      apply andb_prop in Hav as [Hst _]. apply bool_decide_eq_true in Hst.
      destruct (IH _ _ _ Hrest) as (Hnd & Hids & Hframe).
      assert (s2 !! jid = Some (set_acquired w (isoformat clock) row)) as Hj.
      { apply Hframe; [by rewrite lookup_insert_eq | done]. }
      assert (jid ∉ ids') as Hfresh.
      { intros Hin. destruct (Hids jid Hin) as (r & r' & Hr & Hp & _).
        rewrite lookup_insert_eq in Hr. injection Hr as <-. done. }
      split_and!.
      * by constructor.
      * intros id Hid. apply elem_of_cons in Hid as [->|Hid].
        -- exists row. eexists. split_and!; [done | done | exact Hj | done].
        -- destruct (Hids id Hid) as (r & r' & Hr & Hp & Hr' & Hp').
           assert (id ≠ jid) as Hne by (intros ->; by apply Hfresh).
           rewrite lookup_insert_ne in Hr by done. eauto 8.
      * intros k r Hr Hnp. apply Hframe; [|done].
        rewrite lookup_insert_ne; [done|]. intros <-. congruence.
    + pose proof (acquire_job_None_table isoformat clock w s) as Hsame.
      rewrite Hacq in Hsame. simpl in Hsame. rewrite Hsame by done.
      apply IH.
Qed.

(** X2.  Calls of [acquire_job] made one after the other, by whatever
    workers and at whatever times, never hand out the same job twice: the
    ids they return are pairwise different, each was pending before the
    first call and is processing after the last. *)
Theorem acquire_all_distinct calls (s : Table) :
  NoDup (acquire_all isoformat calls s).2 ∧
  ∀ id, id ∈ (acquire_all isoformat calls s).2 →
    ∃ r r', s !! id = Some r ∧ state r = pending ∧
            (acquire_all isoformat calls s).1 !! id = Some r' ∧
            state r' = processing.
Proof.
  destruct (acquire_all isoformat calls s) as [s' ids] eqn:Hall.
  destruct (acquire_all_inv _ _ _ _ Hall) as (Hnd & Hids & _). by split.
Qed.

(** X3.  [delete_dlq_job] removes the row of [job_id] when it is dead and
    returns true; for a row in another state or a missing id it returns
    false and the table stays.  No other row is touched either way. *)
Theorem delete_dlq_job_spec job_id (s : Table) :
  match s !! job_id with
  | Some row =>
      if decide (state row = dead)
      then delete_dlq_job job_id s = (delete job_id s, true) ∧
           (delete_dlq_job job_id s).1 !! job_id = None ∧
           S (size (delete_dlq_job job_id s).1) = size s
      else delete_dlq_job job_id s = (s, false)
  | None => delete_dlq_job job_id s = (s, false)
  end ∧
  ∀ k, k ≠ job_id → (delete_dlq_job job_id s).1 !! k = s !! k.
Proof.
  unfold delete_dlq_job, delete_by_id. split.
  - destruct (s !! job_id) as [row|] eqn:Hrow; [|done].
    unfold is_dead. case_decide as Hdead.
    + rewrite bool_decide_eq_true_2 by done. simpl.
      split_and!; [done | apply lookup_delete_eq |].
      rewrite map_size_delete, Hrow.
      assert (size s ≠ 0%nat) as Hsz; [|lia].
      intros Hz. apply map_size_empty_inv in Hz. subst s.
      by rewrite lookup_empty in Hrow.
    + by rewrite bool_decide_eq_false_2.
  - intros k Hk. destruct (s !! job_id) as [row|]; [|done].
    destruct (is_dead row); simpl; [by rewrite lookup_delete_ne | done].
Qed.

(** X4.  A second [recover_abandoned_jobs] with the same clock reading and
    threshold changes nothing. *)
Theorem recover_abandoned_jobs_idempotent clock threshold_seconds (s : Table) :
  recover_abandoned_jobs isoformat clock threshold_seconds
    (recover_abandoned_jobs isoformat clock threshold_seconds s) =
  recover_abandoned_jobs isoformat clock threshold_seconds s.
Proof.
  apply map_eq. intros k. rewrite !recover_abandoned_jobs_lookup.
  destruct (s !! k) as [row|]; [|done]. simpl. f_equal.
  destruct (is_abandoned _ row) eqn:Hab; [done | by rewrite Hab].
Qed.

(** X6.  In every table reached from the empty one, a row that is failed or
    dead has a [last_error]. *)
Theorem failure_leaves_error ops k row :
  run_ops isoformat ops ∅ !! k = Some row →
  state row = failed ∨ state row = dead → is_Some (last_error row).
Proof.
  intros Hrow.
  refine (run_ops_keeps isoformat
            (λ r, state r = failed ∨ state r = dead → is_Some (last_error r))
            _ _ _ _ _ _ _ ops ∅ _ k row Hrow); simpl;
    try (intros; intuition (eauto || congruence)).
  apply map_Forall_empty.
Qed.

(** X7.  A lease is never overwritten.  If a row is processing after an
    operation, then either it was processing before and the operation left
    the whole row as it was, or it was pending and the operation was the
    [acquire_job] that locked it for its caller. *)
Theorem lease_never_overwritten op (s : Table) k row row' :
  s !! k = Some row →
  apply_op isoformat op s !! k = Some row' →
  state row' = processing →
  (state row = processing ∧ row' = row) ∨
  (state row = pending ∧
   ∃ clock worker_id, op = Acquire clock worker_id ∧
                      locked_by row' = Some worker_id).
Proof.
  intros Hrow Hrow' Hproc. pose proof (apply_op_row op s k) as Hstep.
  rewrite Hrow, Hrow' in Hstep.
  destruct Hstep as [Hs|[(c & w & -> & Hp & Hs)|[(c & -> & Hs)
    |[(c & e & b & -> & [Hs|[nr Hs]])|[(c & t & -> & Hp & Hs)
    |[(c & r & -> & Hp & Hs)|(_ & _ & Hs)]]]]]];
    simplify_eq; simpl in *; try done.
  - by left.
  - right. split; [done|]. by exists c, w.
Qed.

(** X8.  No operation changes the command, the retry budget or the creation
    time of a row that stays in the table. *)
Theorem fixed_columns op (s : Table) k row row' :
  s !! k = Some row →
  apply_op isoformat op s !! k = Some row' →
  command row' = command row ∧
  max_retries row' = max_retries row ∧
  created_at row' = created_at row.
Proof.
  intros Hrow Hrow'. pose proof (apply_op_row op s k) as Hstep.
  rewrite Hrow, Hrow' in Hstep.
  destruct Hstep as [Hs|[(c & w & -> & Hp & Hs)|[(c & -> & Hs)
    |[(c & e & b & -> & [Hs|[nr Hs]])|[(c & t & -> & Hp & Hs)
    |[(c & r & -> & Hp & Hs)|(_ & _ & Hs)]]]]]];
    by simplify_eq.
Qed.

(** X9.  A row leaves the table only by [delete_dlq_job] on its id, and only
    when it is dead. *)
Theorem rows_only_leave_by_delete op (s : Table) k row :
  s !! k = Some row →
  apply_op isoformat op s !! k = None →
  op = DeleteDlq k ∧ state row = dead.
Proof.
  intros Hrow Hgone. pose proof (apply_op_row op s k) as Hstep.
  rewrite Hrow, Hgone in Hstep.
  destruct Hstep as [Hs|[(c & w & -> & Hp & Hs)|[(c & -> & Hs)
    |[(c & e & b & -> & [Hs|[nr Hs]])|[(c & t & -> & Hp & Hs)
    |[(c & r & -> & Hp & Hs)|(-> & Hd & Hs)]]]]]]; done.
Qed.

(** X10.  Every operation but [recover_abandoned_jobs] changes the row of
    at most one id. *)
Theorem one_row_changes op (s : Table) :
  (∀ clock threshold, op ≠ RecoverAbandoned clock threshold) →
  ∃ k0, ∀ k, k ≠ k0 → apply_op isoformat op s !! k = s !! k.
Proof.
  intros Hop.
  destruct op as [clock job|clock w|clock jid|clock jid err base
                 |clock thr|clock jid reset|jid]; simpl.
  - exists (job_id job). intros k Hk. unfold enqueue_job.
    destruct (s !! job_id job); simpl; [done | by rewrite lookup_insert_ne].
  - destruct (acquire_job isoformat clock w s) as [s' [[jid j]|]] eqn:Hacq.
    + apply acquire_job_Some in Hacq as (row & _ & _ & _ & _ & ->).
      exists jid. intros k Hk. simpl. by rewrite lookup_insert_ne.
    + pose proof (acquire_job_None_table isoformat clock w s) as Hsame.
      rewrite Hacq in Hsame. simpl in *. rewrite Hsame by done.
      by exists ""%string.
  - exists jid. intros k Hk. unfold update_job_success.
    rewrite update_by_id_lookup. by case_decide.
  - exists jid. intros k Hk. destruct (s !! jid) as [row|] eqn:Hrow.
    + rewrite (update_job_failure_found _ _ _ _ _ _ row Hrow).
      by rewrite lookup_insert_ne.
    + by rewrite update_job_failure_missing.
  - by destruct (Hop clock thr).
  - exists jid. intros k Hk. destruct (s !! jid) as [row|] eqn:Hrow.
    + destruct (decide (state row = dead)) as [Hdead|Hnd].
      * rewrite (retry_dlq_job_dead _ _ _ _ _ row Hrow Hdead). simpl.
        by rewrite lookup_insert_ne.
      * rewrite retry_dlq_job_not_dead; [done|].
        intros row0. rewrite Hrow. congruence.
    + rewrite retry_dlq_job_not_dead; [done|]. intros row0. by rewrite Hrow.
  - exists jid. intros k Hk. unfold delete_dlq_job, delete_by_id.
    destruct (s !! jid) as [row|]; [|done].
    destruct (is_dead row); simpl; [by rewrite lookup_delete_ne | done].
Qed.

(** X11.  After [retry_dlq_job] has returned true, [acquire_job] at any
    clock reading that does not render before the one of the retry returns
    a job. *)
Theorem retried_job_is_acquirable clock clock' job_id reset_attempts
    worker_id (s : Table) :
  (retry_dlq_job isoformat clock job_id reset_attempts s).2 = true →
  Text.le (isoformat clock) (isoformat clock') →
  is_Some (acquire_job isoformat clock' worker_id
             (retry_dlq_job isoformat clock job_id reset_attempts s).1).2.
Proof.
  intros Htrue Hle.
  destruct (s !! job_id) as [row|] eqn:Hrow.
  - destruct (decide (state row = dead)) as [Hdead|Hnd].
    + rewrite (retry_dlq_job_dead _ _ _ _ _ row Hrow Hdead). simpl.
      apply not_eq_None_Some. intros Hnone.
      pose proof (proj1 (acquire_job_None isoformat clock' worker_id _) Hnone
                    job_id _ (lookup_insert_eq _ _ _)) as Hav.
      unfold is_available in Hav. simpl in Hav.
      unfold Text.le in Hle. by rewrite Hle in Hav.
    + rewrite retry_dlq_job_not_dead in Htrue; [done|].
      intros row0. rewrite Hrow. congruence.
  - rewrite retry_dlq_job_not_dead in Htrue; [done|].
    intros row0. by rewrite Hrow.
Qed.

End StorageMore.

(** * The read-only queries *)

Module QueryFacts.

Import Storage SqlFacts.

#[global] Instance created_ge_trans : Transitive created_ge.
Proof. intros a b c Hab Hbc. unfold created_ge in *. by etrans. Qed.

#[global] Instance created_ge_total : Total created_ge.
Proof. intros a b. unfold created_ge. apply TextFacts.le_total. Qed.







(** The dictionary of the GROUP BY holds, for every state that has rows,
    the number of those rows. *)
Lemma count_rows_lookup (rows : list (string * Job)) name :
  foldr (λ (r : string * Job) counts,
           <[state_name (state r.2) :=
               S (default 0%nat (counts !! state_name (state r.2)))]> counts)
        (∅ : gmap string nat) rows !! name =
  match length (filter (λ r : string * Job, has_state name r.2) rows) with
  | O => None
  | S n => Some (S n)
  end.
Proof.
  induction rows as [|r rows IH]; [done|]. simpl.
  rewrite filter_cons. unfold has_state at 1.
  destruct (decide (state_name (state r.2) = name)) as [Heq|Hne].
  - rewrite decide_True by by apply bool_decide_pack.
    rewrite Heq, lookup_insert_eq, IH. simpl. by destruct (length _).
  - rewrite decide_False by (intros H; by apply bool_decide_unpack in H).
    by rewrite lookup_insert_ne.
Qed.

Lemma setdefault_lookup key value (d : gmap string nat) k :
  setdefault key value d !! k =
  if decide (k = key) then Some (default value (d !! key)) else d !! k.
Proof.
  unfold setdefault. case_decide as Hk; [subst k|].
  - destruct (d !! key) eqn:Hd; [by rewrite Hd | by rewrite lookup_insert_eq].
  - destruct (d !! key); [done | by rewrite lookup_insert_ne].
Qed.

Lemma setdefault_all_lookup names (d : gmap string nat) k :
  foldl (λ counts name, setdefault name 0%nat counts) d names !! k =
  if bool_decide (k ∈ names) then Some (default 0%nat (d !! k)) else d !! k.
Proof.
  revert d. induction names as [|n names IH]; intros d.
  - done.
  - cbn [foldl]. rewrite IH, setdefault_lookup.
    destruct (decide (k = n)) as [->|Hk].
    + rewrite (bool_decide_eq_true_2 (n ∈ n :: names)) by left.
      by case_bool_decide.
    + case_bool_decide as Hin.
      * by rewrite bool_decide_eq_true_2 by by right.
      * rewrite bool_decide_eq_false_2; [done|].
        intros [?|?]%elem_of_cons; done.
Qed.

Lemma get_job_counts_lookup (s : Table) name :
  get_job_counts s !! name =
  if bool_decide (name ∈ ["pending"; "processing"; "completed"; "failed";
                          "dead"]%string)
  then Some (length (select_where (has_state name) s))
  else None.
Proof.
  unfold get_job_counts, count_by_state, select_where.
  rewrite setdefault_all_lookup, count_rows_lookup.
  case_bool_decide as Hin; [by destruct (length _)|].
  destruct (filter _ _) as [|[k r] l] eqn:Hf; [done|].
  assert ((k, r) ∈ filter (λ r : string * Job, has_state name r.2) (map_to_list s))
    as Hkr by (rewrite Hf; left).
  apply list_elem_of_filter in Hkr as [Hst _]. simpl in Hst.
  apply bool_decide_unpack in Hst. subst name.
  exfalso. apply Hin. destruct (state r); simpl;
    repeat first [by left | right].
Qed.

Lemma length_filter_has_state name k r (rows : list (string * Job)) :
  length (filter (λ r0 : string * Job, has_state name r0.2) ((k, r) :: rows)) =
  ((if has_state name r then 1 else 0) +
   length (filter (λ r0 : string * Job, has_state name r0.2) rows))%nat.
Proof.
  rewrite filter_cons. simpl. destruct (has_state name r); by case_decide.
Qed.

Lemma count_states_total (rows : list (string * Job)) :
  (length (filter (λ r : string * Job, has_state "pending" r.2) rows) +
   length (filter (λ r : string * Job, has_state "processing" r.2) rows) +
   length (filter (λ r : string * Job, has_state "completed" r.2) rows) +
   length (filter (λ r : string * Job, has_state "failed" r.2) rows) +
   length (filter (λ r : string * Job, has_state "dead" r.2) rows))%nat
  = length rows.
Proof.
  induction rows as [|[k r] rows IH]; [done|].
  rewrite !length_filter_has_state. cbn [length]. rewrite <- IH.
  unfold has_state. destruct (state r); simpl; lia.
Qed.

(** X13.  [get_job_counts] has an entry for each of the five states and for
    nothing else, every entry is the number of rows in that state, and the
    entries add up to the number of rows of the table. *)
Theorem get_job_counts_spec (s : Table) :
  (∀ st, get_job_counts s !! state_name st
         = Some (length (select_where (has_state (state_name st)) s))) ∧
  (∀ name, is_Some (get_job_counts s !! name) → ∃ st, name = state_name st) ∧
  (default 0 (get_job_counts s !! "pending") +
   default 0 (get_job_counts s !! "processing") +
   default 0 (get_job_counts s !! "completed") +
   default 0 (get_job_counts s !! "failed") +
   default 0 (get_job_counts s !! "dead"))%nat = size s.
Proof.
  split_and!.
  - intros st. rewrite get_job_counts_lookup. by destruct st.
  - intros name. rewrite get_job_counts_lookup.
    case_bool_decide as Hin; [|by intros [? ?]]. intros _.
    repeat (apply elem_of_cons in Hin as [->|Hin]);
      [by exists pending | by exists processing | by exists completed
      | by exists failed | by exists dead | by apply elem_of_nil in Hin].
  - rewrite !get_job_counts_lookup. simpl.
    rewrite <- length_map_to_list. apply count_states_total.
Qed.

End QueryFacts.

(** * The configuration and the worker registry *)

Module ConfigFacts.

Import Storage Config.

(** Writing the defaults that are missing, for any dictionary of defaults
    with distinct keys. *)
Lemma ensure_fold_lookup (existing : ConfigTable) (d : list (string * string))
    (acc : ConfigTable) k :
  NoDup d.*1 →
  foldl (λ acc (kv : string * string),
           if bool_decide (existing !! kv.1 = None)
           then set_config kv.1 kv.2 acc else acc) acc d !! k =
  match existing !! k, (list_to_map d : gmap string string) !! k with
  | None, Some v => Some v
  | _, _ => acc !! k
  end.
Proof.
  revert acc. induction d as [|[k0 v0] d IH]; intros acc Hnd.
  - simpl. rewrite lookup_empty. by destruct (existing !! k).
  - apply NoDup_cons in Hnd as [Hk0 Hnd]. cbn [foldl fst snd].
    rewrite IH by done. rewrite list_to_map_cons.
    destruct (decide (k = k0)) as [->|Hk].
    + rewrite lookup_insert_eq.
      rewrite (not_elem_of_list_to_map_1 d k0) by done.
      case_bool_decide as He.
      * rewrite He. unfold set_config. by rewrite lookup_insert_eq.
      * by destruct (existing !! k0).
    + rewrite lookup_insert_ne by done.
      assert ((if bool_decide (existing !! k0 = None)
               then set_config k0 v0 acc else acc) !! k = acc !! k) as ->.
      { case_bool_decide; [|done]. unfold set_config.
        by rewrite lookup_insert_ne. }
      done.
Qed.

Lemma DEFAULT_CONFIG_NoDup : NoDup DEFAULT_CONFIG.*1.
Proof. apply (bool_decide_unpack _). by vm_compute. Qed.

Lemma ensure_defaults_lookup (c : ConfigTable) k :
  ensure_defaults c !! k =
  match c !! k with
  | Some v => Some v
  | None => dict_get DEFAULT_CONFIG k None
  end.
Proof.
  unfold ensure_defaults, get_all_config, dict_get.
  rewrite ensure_fold_lookup by apply DEFAULT_CONFIG_NoDup.
  destruct (c !! k); [done|]. by destruct (_ !! k).
Qed.

(** X14.  [Config._ensure_defaults] keeps every value that is stored, gives
    each key that is not stored the value [DEFAULT_CONFIG] has for it, adds
    no other key, and changes nothing when run again. *)
Theorem ensure_defaults_spec (c : ConfigTable) :
  (∀ k v, c !! k = Some v → ensure_defaults c !! k = Some v) ∧
  (∀ k, c !! k = None →
        ensure_defaults c !! k = dict_get DEFAULT_CONFIG k None) ∧
  (∀ k v, (k, v) ∈ DEFAULT_CONFIG → is_Some (ensure_defaults c !! k)) ∧
  ensure_defaults (ensure_defaults c) = ensure_defaults c.
Proof.
  split_and!.
  - intros k v Hk. by rewrite ensure_defaults_lookup, Hk.
  - intros k Hk. by rewrite ensure_defaults_lookup, Hk.
  - intros k v Hin. rewrite ensure_defaults_lookup.
    destruct (c !! k); [done|]. unfold dict_get.
    assert ((list_to_map DEFAULT_CONFIG : gmap string string) !! k = Some v)
      as ->; [|done].
    apply elem_of_list_to_map; [apply DEFAULT_CONFIG_NoDup | done].
  - apply map_eq. intros k. rewrite !ensure_defaults_lookup.
    destruct (c !! k); [done|]. by destruct (dict_get _ _ _).
Qed.

(** X15.  [Config.get] returns the value [Config.set] has stored under a
    key, whatever the default; a [set] under another key does not change
    it; and writing the defaults does not change what it returns. *)
Theorem config_get_set key value default (c : ConfigTable) :
  get key default (set key value c) = Some value ∧
  (∀ key', key' ≠ key →
           get key' default (set key value c) = get key' default c) ∧
  get key default (ensure_defaults c) = get key default c.
Proof.
  unfold get, set, get_config, set_config. split_and!.
  - by rewrite lookup_insert_eq.
  - intros key' Hne. by rewrite lookup_insert_ne.
  - rewrite ensure_defaults_lookup. destruct (c !! key); [done|].
    unfold dict_get. by destruct (_ !! key).
Qed.

End ConfigFacts.

Section RegistryFacts.

Import Datetime Storage.

Variable isoformat : datetime → string.

#[global] Instance started_le_trans : Transitive started_le.
Proof. intros a b c. unfold started_le. apply TextFacts.le_trans. Qed.

#[global] Instance started_le_total : Total started_le.
Proof. intros a b. unfold started_le. apply TextFacts.le_total. Qed.

Lemma update_worker_heartbeat_lookup clock worker_id (w : WorkerTable) k :
  update_worker_heartbeat isoformat clock worker_id w !! k =
  if decide (k = worker_id)
  then (λ row, {| pid := pid row; started_at := started_at row;
                  last_heartbeat := isoformat clock |}) <$> w !! k
  else w !! k.
Proof.
  unfold update_worker_heartbeat. case_decide as Hk; [subst k|].
  - destruct (w !! worker_id) as [row|] eqn:Hrow; simpl;
      [by rewrite lookup_insert_eq | done].
  - destruct (w !! worker_id); [by rewrite lookup_insert_ne | done].
Qed.

(** X16.  A heartbeat registers nobody and unregisters nobody: the workers
    in the table are the same before and after, each with its pid and
    [started_at]; only [last_heartbeat] of the worker named changes, and a
    heartbeat of a worker that is not registered changes nothing.
    Unregistering a worker after registering it leaves the table without
    that worker and with every other worker as before. *)
Theorem worker_registry clock worker_id os_pid (w : WorkerTable) :
  dom (update_worker_heartbeat isoformat clock worker_id w) = dom w ∧
  (∀ k row, w !! k = Some row →
     ∃ row', update_worker_heartbeat isoformat clock worker_id w !! k
               = Some row' ∧
             pid row' = pid row ∧ started_at row' = started_at row ∧
             last_heartbeat row' =
               (if decide (k = worker_id) then isoformat clock
                else last_heartbeat row)) ∧
  (w !! worker_id = None →
     update_worker_heartbeat isoformat clock worker_id w = w) ∧
  unregister_worker worker_id
    (register_worker isoformat clock worker_id os_pid w) = delete worker_id w.
Proof.
  split_and!.
  - apply set_eq. intros k. rewrite !elem_of_dom.
    rewrite update_worker_heartbeat_lookup.
    case_decide; [by rewrite fmap_is_Some | done].
  - intros k row Hrow. rewrite update_worker_heartbeat_lookup, Hrow.
    case_decide; eexists; (split; [reflexivity|]); done.
  - intros Hnone. unfold update_worker_heartbeat. by rewrite Hnone.
  - unfold unregister_worker, register_worker. apply delete_insert_eq.
Qed.

(** X17.  [get_active_workers] lists every registered worker once, ordered
    by [started_at]. *)
Theorem get_active_workers_spec (w : WorkerTable) :
  get_active_workers w ≡ₚ map_to_list w ∧
  StronglySorted started_le (get_active_workers w) ∧
  NoDup (get_active_workers w).*1 ∧
  ∀ k row, (k, row) ∈ get_active_workers w ↔ w !! k = Some row.
Proof.
  unfold get_active_workers.
  pose proof (merge_sort_Permutation started_le (map_to_list w)) as Hperm.
  split_and!.
  - done.
  - apply StronglySorted_merge_sort; apply _.
  - rewrite Hperm. apply NoDup_fst_map_to_list.
  - intros k row. rewrite Hperm. apply elem_of_map_to_list.
Qed.

End RegistryFacts.

(** * The worker *)

Module StringFacts.

Lemma substring_0_length n s : (String.length (substring 0 n s) ≤ n)%nat.
Proof.
  revert s. induction n as [|n IH]; intros [|c s]; simpl; try lia.
  specialize (IH s). lia.
Qed.

Lemma substring_0_prefix n s : String.prefix (substring 0 n s) s = true.
Proof.
  revert s. induction n as [|n IH]; intros [|c s]; simpl; try done.
  destruct (ascii_dec c c); [apply IH | done].
Qed.

Lemma substring_0_all n s : (String.length s ≤ n)%nat → substring 0 n s = s.
Proof.
  revert s. induction n as [|n IH]; intros [|c s]; simpl; try done; try lia.
  intros Hlen. f_equal. apply IH. lia.
Qed.

Lemma substring_0_nonempty n s :
  s ≠ ""%string → (0 < n)%nat → substring 0 n s ≠ ""%string.
Proof. destruct n, s; simpl; try done; lia. Qed.

End StringFacts.

Section WorkerFacts.

Import Datetime Storage Executor Worker SqlFacts StringFacts.

Variable isoformat : datetime → string.
Variable float : Type.
Variable fsub : float → float → float.

(** X18.  The message the worker records for a failed run is never empty.
    When the run wrote to stderr it is the first 500 characters of stderr
    (all of it when stderr is no longer than that); otherwise it is
    [Exit code: N]. *)
Theorem error_message_bounds (result : ExecutionResult float) :
  error_message float result ≠ ""%string ∧
  (stderr result ≠ ""%string →
     (String.length (error_message float result) ≤ 500)%nat ∧
     String.prefix (error_message float result) (stderr result) = true ∧
     ((String.length (stderr result) ≤ 500)%nat →
        error_message float result = stderr result)) ∧
  (stderr result = ""%string →
     error_message float result
       = ("Exit code: " ++ str (returncode result))%string).
Proof.
  unfold error_message. split_and!.
  - case_bool_decide as He; [|done].
    apply substring_0_nonempty; [done | lia].
  - intros He. rewrite bool_decide_eq_true_2 by done. split_and!.
    + apply substring_0_length.
    + apply substring_0_prefix.
    + apply substring_0_all.
  - intros He. by rewrite bool_decide_eq_false_2 by (by intros ?).
Qed.


Lemma limit_reached_ge limit jobs_processed :
  0 < limit →
  limit_reached (Some limit) jobs_processed = false → jobs_processed < limit.
Proof.
  unfold limit_reached. intros Hl.
  rewrite bool_decide_eq_true_2 by lia. simpl.
  intros Hn. apply bool_decide_eq_false in Hn. lia.
Qed.

(** X20.  The loop counts a pass only when it has run a job, so the count
    grows by at most one a pass.  With a job limit above zero the worker
    never goes beyond the limit. *)
Theorem loop_job_limit worker_id backoff_base job_limit
    (ticks : list (Tick float)) jobs_processed (db : Db) :
  let final :=
    (loop isoformat float fsub worker_id backoff_base job_limit ticks
       jobs_processed db).2 in
  jobs_processed <= final <= jobs_processed + Z.of_nat (length ticks) ∧
  ∀ limit, job_limit = Some limit → 0 < limit → jobs_processed <= limit →
           final <= limit.
Proof.
  revert jobs_processed db.
  induction ticks as [|tick ticks IH]; intros n db; simpl.
  - split; [lia | auto].
  - destruct (limit_reached job_limit n) eqn:Hlim; simpl.
    { split; [lia | auto]. }
    destruct (acquire_job isoformat (acquire_clock tick) worker_id (jobs db))
      as [jobs1 [[jid job]|]].
    + destruct (execute _ _ _ _ _ _ _) as [result|e]; simpl.
      * match goal with |- context [loop _ _ _ _ _ _ _ _ ?d] =>
          destruct (IH (n + 1) d) as [Hrange Hlimit] end.
        split; [lia|]. intros limit -> Hpos Hn.
        apply (Hlimit limit eq_refl Hpos).
        apply limit_reached_ge in Hlim; [lia | done].
      * split; [lia | auto].
    + match goal with |- context [loop _ _ _ _ _ _ _ _ ?d] =>
        destruct (IH n d) as [Hrange Hlimit] end.
      split; [lia | done].
Qed.

Lemma loop_tables worker_id backoff_base job_limit
    (ticks : list (Tick float)) jobs_processed (db : Db) :
  let db' :=
    (loop isoformat float fsub worker_id backoff_base job_limit ticks
       jobs_processed db).1 in
  config db' = config db ∧
  dom (workers db') = dom (workers db) ∧
  ∀ k, k ≠ worker_id → workers db' !! k = workers db !! k.
Proof.
  revert jobs_processed db.
  assert (∀ clock (w : WorkerTable),
            dom (update_worker_heartbeat isoformat clock worker_id w) = dom w)
    as Hdom.
  { intros clock w. apply set_eq. intros k. rewrite !elem_of_dom.
    rewrite update_worker_heartbeat_lookup.
    case_decide; [by rewrite fmap_is_Some | done]. }
  assert (∀ clock (w : WorkerTable) k, k ≠ worker_id →
            update_worker_heartbeat isoformat clock worker_id w !! k = w !! k)
    as Hframe.
  { intros clock w k Hk. rewrite update_worker_heartbeat_lookup.
    by rewrite decide_False. }
  induction ticks as [|tick ticks IH]; intros n db; simpl; [done|].
  destruct (limit_reached job_limit n); simpl; [done|].
  destruct (acquire_job isoformat (acquire_clock tick) worker_id (jobs db))
    as [jobs1 [[jid job]|]].
  - destruct (execute _ _ _ _ _ _ _) as [result|e]; simpl; [|done].
    match goal with |- context [loop _ _ _ _ _ _ _ _ ?d] =>
      destruct (IH (n + 1) d) as (Hc & Hd & Hw) end.
    simpl in *. split_and!; [done | by rewrite Hd | ].
    intros k Hk. rewrite Hw by done. by apply Hframe.
  - match goal with |- context [loop _ _ _ _ _ _ _ _ ?d] =>
      destruct (IH n d) as (Hc & Hd & Hw) end.
    simpl in *. split_and!; [done | by rewrite Hd | ].
    intros k Hk. rewrite Hw by done. by apply Hframe.
Qed.

(** X21.  [Worker.run] ends with the worker unregistered, whatever the
    passes of the loop met; the registrations of the other workers are as
    they were, and the config table is the one it found with the missing
    defaults written. *)
Theorem run_unregisters worker_id os_pid backoff_base job_limit
    register_clock (ticks : list (Tick float)) (db : Db) :
  let db' :=
    (run isoformat float fsub worker_id os_pid backoff_base job_limit
       register_clock ticks db).1 in
  workers db' !! worker_id = None ∧
  (∀ k, k ≠ worker_id → workers db' !! k = workers db !! k) ∧
  config db' = Config.ensure_defaults (config db).
Proof.
  unfold run.
  match goal with |- context [loop _ _ _ _ _ _ ?t ?n ?d] =>
    pose proof (loop_tables worker_id backoff_base job_limit t n d)
      as (Hc & _ & Hw);
    destruct (loop isoformat float fsub worker_id backoff_base job_limit t n d)
      as [db1 n1] end.
  simpl in *. unfold unregister_worker. split_and!.
  - apply lookup_delete_eq.
  - intros k Hk. rewrite lookup_delete_ne by done. rewrite Hw by done.
    unfold register_worker. by rewrite lookup_insert_ne.
  - done.
Qed.

(** X22.  The worker changes the jobs table only by [acquire_job] under its
    own id and by [update_job_success] and [update_job_failure] with its
    own backoff base: the jobs table after the loop is the one a sequence
    of such operations gives.  It never enqueues, deletes, retries or
    recovers a job. *)
Theorem loop_uses_storage_operations worker_id backoff_base job_limit
    (ticks : list (Tick float)) jobs_processed (db : Db) :
  ∃ ops,
    jobs (loop isoformat float fsub worker_id backoff_base job_limit ticks
            jobs_processed db).1 = run_ops isoformat ops (jobs db) ∧
    Forall (λ op,
              match op with
              | Acquire _ w => w = worker_id
              | Complete _ _ => True
              | Fail _ _ _ base => base = backoff_base
              | _ => False
              end) ops.
Proof.
  revert jobs_processed db.
  induction ticks as [|tick ticks IH]; intros n db; simpl.
  - by exists [].
  - destruct (limit_reached job_limit n); simpl; [by exists []|].
    destruct (acquire_job isoformat (acquire_clock tick) worker_id (jobs db))
      as [jobs1 [[jid job]|]] eqn:Hacq.
    + assert (jobs1 = apply_op isoformat
                        (Acquire (acquire_clock tick) worker_id) (jobs db))
        as Hjobs1 by (simpl; by rewrite Hacq).
      destruct (execute _ _ _ _ _ _ _) as [result|e]; simpl.
      * match goal with |- context [loop _ _ _ _ _ _ _ _ ?d] =>
          destruct (IH (n + 1) d) as (ops & Hops & Hall) end.
        simpl in Hops. unfold record_outcome in *.
        destruct (bool_decide (returncode result = 0)).
        -- exists (Acquire (acquire_clock tick) worker_id
                   :: Complete (outcome_clock tick) jid :: ops).
           split; [|by repeat constructor].
           rewrite Hops. cbn [run_ops]. by rewrite <- Hjobs1.
        -- exists (Acquire (acquire_clock tick) worker_id
                   :: Fail (outcome_clock tick) jid
                        (error_message float result) backoff_base :: ops).
           split; [|by repeat constructor].
           rewrite Hops. cbn [run_ops]. by rewrite <- Hjobs1.
      * exists [Acquire (acquire_clock tick) worker_id].
        split; [by rewrite Hjobs1 | by repeat constructor].
    + assert (jobs1 = apply_op isoformat
                        (Acquire (acquire_clock tick) worker_id) (jobs db))
        as Hjobs1 by (simpl; by rewrite Hacq).
      match goal with |- context [loop _ _ _ _ _ _ _ _ ?d] =>
        destruct (IH n d) as (ops & Hops & Hall) end.
      simpl in Hops.
      exists (Acquire (acquire_clock tick) worker_id :: ops).
      split; [|by constructor].
      rewrite Hops. cbn [run_ops]. by rewrite <- Hjobs1.
Qed.

End WorkerFacts.

(** * The further properties at work on sample tables *)

Module MoreWitnesses.

Import Datetime Storage Executor Worker Sample.

Lemma attempts_nonneg_witness :
  run_ops isoformat
    [Enqueue (at_second 1) (job "j2" 3); Acquire (at_second 2) "w1"] ∅
    !! "j2" = Some acquired_row ∧
  0 <= attempts acquired_row.
Proof.
  assert (run_ops isoformat
            [Enqueue (at_second 1) (job "j2" 3); Acquire (at_second 2) "w1"] ∅
            !! "j2" = Some acquired_row) as Hrow
    by (vm_compute; reflexivity).
  split; [exact Hrow|].
  exact (attempts_nonneg isoformat _ "j2" acquired_row Hrow).
Defined.

Lemma failure_leaves_error_witness :
  run_ops isoformat
    [Enqueue (at_second 1) (job "j2" 3); Acquire (at_second 2) "w1";
     Fail (at_second 3) "j2" "boom" 2] ∅ !! "j2" = Some failed_row ∧
  (state failed_row = failed ∨ state failed_row = dead) ∧
  is_Some (last_error failed_row).
Proof.
  assert (run_ops isoformat
            [Enqueue (at_second 1) (job "j2" 3); Acquire (at_second 2) "w1";
             Fail (at_second 3) "j2" "boom" 2] ∅ !! "j2" = Some failed_row)
    as Hrow by (vm_compute; reflexivity).
  assert (state failed_row = failed ∨ state failed_row = dead) as Hst
    by (left; reflexivity).
  split; [exact Hrow|]. split; [exact Hst|].
  exact (failure_leaves_error isoformat _ "j2" failed_row Hrow Hst).
Defined.

Lemma lease_never_overwritten_witness :
  one_acquired !! "j2" = Some acquired_row ∧
  apply_op isoformat (Acquire (at_second 5) "w2") one_acquired !! "j2"
    = Some acquired_row ∧
  state acquired_row = processing ∧
  ((state acquired_row = processing ∧ acquired_row = acquired_row) ∨
   (state acquired_row = pending ∧
    ∃ clock worker_id,
      Acquire (at_second 5) "w2" = Acquire clock worker_id ∧
      locked_by acquired_row = Some worker_id)).
Proof.
  assert (one_acquired !! "j2" = Some acquired_row) as Hrow
    by (vm_compute; reflexivity).
  assert (apply_op isoformat (Acquire (at_second 5) "w2") one_acquired !! "j2"
            = Some acquired_row) as Hrow' by (vm_compute; reflexivity).
  assert (state acquired_row = processing) as Hst by reflexivity.
  split; [exact Hrow|]. split; [exact Hrow'|]. split; [exact Hst|].
  exact (lease_never_overwritten isoformat _ _ "j2" _ _ Hrow Hrow' Hst).
Defined.

Lemma fixed_columns_witness :
  one_acquired !! "j2" = Some acquired_row ∧
  apply_op isoformat (Fail (at_second 3) "j2" "boom" 2) one_acquired !! "j2"
    = Some failed_row ∧
  command failed_row = command acquired_row ∧
  max_retries failed_row = max_retries acquired_row ∧
  created_at failed_row = created_at acquired_row.
Proof.
  assert (one_acquired !! "j2" = Some acquired_row) as Hrow
    by (vm_compute; reflexivity).
  assert (apply_op isoformat (Fail (at_second 3) "j2" "boom" 2) one_acquired
            !! "j2" = Some failed_row) as Hrow' by (vm_compute; reflexivity).
  split; [exact Hrow|]. split; [exact Hrow'|].
  exact (fixed_columns isoformat _ _ "j2" _ _ Hrow Hrow').
Defined.

Lemma rows_only_leave_by_delete_witness :
  one_dead !! "j1" = Some dead_row ∧
  apply_op isoformat (DeleteDlq "j1") one_dead !! "j1" = None ∧
  DeleteDlq "j1" = DeleteDlq "j1" ∧ state dead_row = dead.
Proof.
  assert (one_dead !! "j1" = Some dead_row) as Hrow
    by (vm_compute; reflexivity).
  assert (apply_op isoformat (DeleteDlq "j1") one_dead !! "j1" = None)
    as Hgone by (vm_compute; reflexivity).
  split; [exact Hrow|]. split; [exact Hgone|].
  exact (rows_only_leave_by_delete isoformat _ _ "j1" _ Hrow Hgone).
Defined.

Lemma one_row_changes_witness :
  (∀ clock threshold,
     Complete (at_second 3) "j2" ≠ RecoverAbandoned clock threshold) ∧
  ∃ k0, ∀ k, k ≠ k0 →
    apply_op isoformat (Complete (at_second 3) "j2") one_acquired !! k
      = one_acquired !! k.
Proof.
  assert (∀ clock threshold,
            Complete (at_second 3) "j2" ≠ RecoverAbandoned clock threshold)
    as Hop by (intros clock threshold; discriminate).
  split; [exact Hop|].
  exact (one_row_changes isoformat _ one_acquired Hop).
Defined.

Lemma retried_job_is_acquirable_witness :
  (retry_dlq_job isoformat (at_second 10) "j1" true one_dead).2 = true ∧
  Text.le (isoformat (at_second 10)) (isoformat (at_second 11)) ∧
  is_Some (acquire_job isoformat (at_second 11) "w2"
             (retry_dlq_job isoformat (at_second 10) "j1" true one_dead).1).2.
Proof.
  assert ((retry_dlq_job isoformat (at_second 10) "j1" true one_dead).2 = true)
    as Htrue by (vm_compute; reflexivity).
  assert (Text.le (isoformat (at_second 10)) (isoformat (at_second 11)))
    as Hle by (vm_compute; reflexivity).
  split; [exact Htrue|]. split; [exact Hle|].
  exact (retried_job_is_acquirable isoformat _ _ "j1" true "w2" one_dead
           Htrue Hle).
Defined.


End MoreWitnesses.
